(** * Argon2id password hashing of [pkg/crypto/password_hash.go]

    A shallow embedding of the hasher: the parameter record [Argon2IdHash],
    [GenerateHash], [VerifyHash] and the helpers [validateSaltLength],
    [generateBytes], [encodeHashComponents] and [decodeHash], together with
    the parts of the Go standard library they call ([strings.Split],
    [fmt.Sprintf] and [fmt.Sscanf] at the two formats used,
    [base64.StdEncoding], [subtle.ConstantTimeCompare]).

    Go strings are [string] (a sequence of 8-bit characters), byte slices are
    [list byte], fixed-width integers are [Z] with the truncation written
    out, a pair [(value, error)] is a pair with an [option error] ([None] is
    [nil]).  What a call reads and leaves behind (entropy, the calls of the
    key derivation, the log) is a [World] that is passed along, and a call
    returns, panics or ends the process.  The key derivation [argon2.IDKey] is a
    parameter of the development; what is assumed of it is stated where it
    is used. *)

From Stdlib Require Import ZArith List Bool Lia Btauto.
From coqutil Require Import Z.bitblast.
From Stdlib Require Import Strings.String Strings.Ascii Strings.Byte.
Import ListNotations.

Local Open Scope string_scope.
Local Open Scope list_scope.
Local Open Scope Z_scope.

(** ** Integers, bytes and characters *)

Definition uint32 (z : Z) : Z := z mod 2 ^ 32.

(** [len(s)] of a slice and of a string. *)
Definition len {A : Type} (l : list A) : Z := Z.of_nat (List.length l).
Definition strlen (s : string) : Z := Z.of_nat (String.length s).

Definition byte_to_Z (b : byte) : Z := Z.of_N (Byte.to_N b).

(** The conversion [byte(v)] of an unsigned value keeps the low eight bits. *)
Definition byte_of_Z (z : Z) : byte :=
  match Byte.of_N (Z.to_N (z mod 256)) with
  | Some b => b
  | None => x00
  end.

Definition char_to_Z (c : ascii) : Z := Z.of_N (N_of_ascii c).
Definition char_of_Z (z : Z) : ascii := ascii_of_N (Z.to_N z).

(** ** Errors *)

(** How a [fmt.Sscanf] call can fail. The input can end where the format
    has literal text ([io.ErrUnexpectedEOF]) or where it has a verb
    ([io.EOF]). *)
Inductive scan_failure : Type :=
| UnexpectedEOF
| EOF
| InputDoesNotMatchFormat
| UnexpectedNewline
| ExpectedInteger
| ValueOutOfRange
| IntegerOverflow.

(** The error values the package can return: the three sentinels of
    [pkg/errormessage], a failure of [crypto/rand], an error of [fmt.Sscanf]
    and [base64.CorruptInputError]. *)
Inductive error : Type :=
| ErrInvalidSaltLength
| ErrInvalidEncodedHash
| ErrIncompatibleArgon2Version
| ErrRandRead
| ErrScan (why : scan_failure)
| CorruptInputError (offset : Z).

(** ** [encoding/base64]: the standard encoding, with padding *)

Module Base64.

Definition encodeStd : string :=
  "ABCDEFGHIJKLMNOPQRSTUVWXYZabcdefghijklmnopqrstuvwxyz0123456789+/".

Definition padChar : ascii := "="%char.

(** [enc.encode[i]] *)
Definition encode (i : Z) : ascii :=
  match String.get (Z.to_nat i) encodeStd with
  | Some c => c
  | None => zero
  end.

Fixpoint index_from (c : ascii) (alphabet : string) (i : Z) : Z :=
  match alphabet with
  | EmptyString => 255
  | String d rest => if Ascii.eqb c d then i else index_from c rest (i + 1)
  end.

(** [enc.decodeMap[c]]: the index of [c] in the alphabet, [0xff] for any
    other character. *)
Definition decodeMap (c : ascii) : Z := index_from c encodeStd 0.

Definition quantum (b0 b1 b2 : Z) : Z :=
  Z.lor (Z.lor (Z.shiftl b0 16) (Z.shiftl b1 8)) b2.

Definition sextet (val : Z) (shift : Z) : ascii :=
  encode (Z.land (Z.shiftr val shift) 63).

(** [EncodeToString]: full groups of three bytes, then the remaining one
    or two bytes with padding. *)
Fixpoint EncodeToString (src : list byte) : string :=
  match src with
  | [] => ""
  | [b0] =>
      let val := Z.shiftl (byte_to_Z b0) 16 in
      String (sextet val 18) (String (sextet val 12)
        (String padChar (String padChar "")))
  | [b0; b1] =>
      let val := Z.lor (Z.shiftl (byte_to_Z b0) 16) (Z.shiftl (byte_to_Z b1) 8) in
      String (sextet val 18) (String (sextet val 12)
        (String (sextet val 6) (String padChar "")))
  | b0 :: b1 :: b2 :: rest =>
      let val := quantum (byte_to_Z b0) (byte_to_Z b1) (byte_to_Z b2) in
      String (sextet val 18) (String (sextet val 12)
        (String (sextet val 6) (String (sextet val 0) (EncodeToString rest))))
  end.

Definition is_newline (c : ascii) : bool :=
  Ascii.eqb c "010"%char || Ascii.eqb c "013"%char.

Fixpoint skip_newlines (src : string) (si : Z) : string * Z :=
  match src with
  | EmptyString => (src, si)
  | String c rest =>
      if is_newline c then skip_newlines rest (si + 1) else (src, si)
  end.

(** The bytes a quantum of [dlen] sextets stands for: [dlen - 1] of the
    three bytes of the 24-bit value (the encoding is not strict, the unused
    low bits are dropped). *)
Definition quantum_bytes (dbuf : list Z) (dlen : nat) : list byte :=
  let d i := nth i dbuf 0 in
  let val := Z.lor (Z.lor (Z.lor (Z.shiftl (d 0%nat) 18) (Z.shiftl (d 1%nat) 12))
                          (Z.shiftl (d 2%nat) 6)) (d 3%nat) in
  firstn (dlen - 1)
    [byte_of_Z (Z.shiftr val 16); byte_of_Z (Z.shiftr val 8); byte_of_Z val].

(** After the padding of the last quantum: newlines may follow, anything
    else is trailing garbage. *)
Definition after_padding (src : string) (si : Z) (out : list byte)
  : error + list byte :=
  let (rest, si') := skip_newlines src si in
  match rest with
  | EmptyString => inr out
  | String _ _ => inl (CorruptInputError si')
  end.

(** [Decode]: the loop over [decodeQuantum], as one pass over the input.
    [si] is the index of the next character, [j] the number of sextets of
    the current quantum read so far and [dbuf] their values. *)
Fixpoint decode_from (src : string) (si : Z) (j : nat) (dbuf : list Z)
  : error + list byte :=
  match src with
  | EmptyString =>
      match j with
      | O => inr []
      | _ => inl (CorruptInputError (si - Z.of_nat j))
      end
  | String c rest =>
      let out := decodeMap c in
      if negb (out =? 255) then
        match j with
        | 3%nat =>
            match decode_from rest (si + 1) 0 [] with
            | inr more => inr (quantum_bytes (dbuf ++ [out]) 4 ++ more)
            | inl e => inl e
            end
        | _ => decode_from rest (si + 1) (S j) (dbuf ++ [out])
        end
      else if is_newline c then decode_from rest (si + 1) j dbuf
      else if negb (Ascii.eqb c padChar) then inl (CorruptInputError si)
      else
        match j with
        | 0%nat | 1%nat => inl (CorruptInputError si)
        | 2%nat =>
            let (rest', si') := skip_newlines rest (si + 1) in
            match rest' with
            | EmptyString => inl (CorruptInputError si')
            | String c' rest'' =>
                if negb (Ascii.eqb c' padChar)
                then inl (CorruptInputError (si' - 1))
                else after_padding rest'' (si' + 1) (quantum_bytes dbuf 2)
            end
        | _ => after_padding rest (si + 1) (quantum_bytes dbuf j)
        end
  end.

Definition DecodeString (s : string) : error + list byte :=
  decode_from s 0 0 [].

Definition in_alphabet (c : ascii) : bool := negb (decodeMap c =? 255).

(** Text in the standard alphabet with padding: groups of four characters
    of the alphabet, the last group possibly ending in one or two padding
    characters. *)
Fixpoint std_padded (s : string) : bool :=
  match s with
  | EmptyString => true
  | String a (String b (String c (String d rest))) =>
      in_alphabet a && in_alphabet b
      && match rest with
         | EmptyString =>
             (in_alphabet c || Ascii.eqb c padChar)
             && (in_alphabet d || Ascii.eqb d padChar)
             && implb (Ascii.eqb c padChar) (Ascii.eqb d padChar)
         | String _ _ => in_alphabet c && in_alphabet d && std_padded rest
         end
  | _ => false
  end.

(** The 24 bits put together from four sextets. *)
Definition of_sextets (d0 d1 d2 d3 : Z) : Z :=
  Z.lor (Z.lor (Z.lor (Z.shiftl d0 18) (Z.shiftl d1 12)) (Z.shiftl d2 6)) d3.

Definition six (val shift : Z) : Z := Z.land (Z.shiftr val shift) 63.

End Base64.

(** ** [strings.Split] at the separator ["$"] *)

Definition sep : ascii := "$"%char.

(** [strings.Split(s, "$")]: the substrings between the separators, one more
    than there are separators. *)
Fixpoint Split (s : string) : list string :=
  match s with
  | EmptyString => [""]
  | String c rest =>
      if Ascii.eqb c sep then "" :: Split rest
      else match Split rest with
           | field :: fields => String c field :: fields
           | [] => [String c ""]
           end
  end.

(** No separator occurs in [s]. *)
Fixpoint no_sep (s : string) : bool :=
  match s with
  | EmptyString => true
  | String c rest => negb (Ascii.eqb c sep) && no_sep rest
  end.

(** ** [fmt]: decimal output and the two [Sscanf] formats *)

Module Fmt.

Definition digit_char (d : Z) : ascii := char_of_Z (48 + d).

Definition is_digit (c : ascii) : bool :=
  (48 <=? char_to_Z c) && (char_to_Z c <=? 57).

Definition digit_value (c : ascii) : Z := char_to_Z c - 48.

(** The digits of [n], least significant first, pushed in front of [acc];
    [fuel] bounds the number of digits. *)
Fixpoint format_digits (fuel : nat) (n : Z) (acc : string) : string :=
  match fuel with
  | O => acc
  | S fuel' =>
      let acc' := String (digit_char (n mod 10)) acc in
      if n <? 10 then acc' else format_digits fuel' (n / 10) acc'
  end.

(** The verb [%d] at an unsigned value of at most 64 bits (twenty
    digits). *)
Definition FormatUint (n : Z) : string := format_digits 20 n "".

(** The value of a string of decimal digits ([strconv.ParseUint] and
    [ParseInt] in base 10, before their range check). *)
Fixpoint digits_value (tok : string) (acc : Z) : Z :=
  match tok with
  | EmptyString => acc
  | String c rest => digits_value rest (10 * acc + digit_value c)
  end.

(** [advance] over literal text of the format (no space, no verb): each
    character must be the next character of the input. *)
Fixpoint advance (literal input : string) : scan_failure + string :=
  match literal with
  | EmptyString => inr input
  | String f literal' =>
      match input with
      | EmptyString => inl UnexpectedEOF
      | String c input' =>
          if Ascii.eqb f c then advance literal' input'
          else inl InputDoesNotMatchFormat
      end
  end.

(** [isSpace] on the one-byte runes other than the newline. *)
Definition is_space1 (c : ascii) : bool :=
  let z := char_to_Z c in
  (z =? 9) || (z =? 11) || (z =? 12) || (z =? 13) || (z =? 32).

(** [isSpace] on the runes of two and three bytes, by their UTF-8
    encoding: U+0085, U+00A0, U+1680, U+2000 to U+200A, U+2028, U+2029,
    U+202F, U+205F and U+3000. *)
Definition is_space2 (c0 c1 : ascii) : bool :=
  let z0 := char_to_Z c0 in
  let z1 := char_to_Z c1 in
  (z0 =? 194) && ((z1 =? 133) || (z1 =? 160)).

Definition is_space3 (c0 c1 c2 : ascii) : bool :=
  let z0 := char_to_Z c0 in
  let z1 := char_to_Z c1 in
  let z2 := char_to_Z c2 in
  ((z0 =? 225) && (z1 =? 154) && (z2 =? 128))
  || ((z0 =? 226) && (z1 =? 128)
      && (((128 <=? z2) && (z2 <=? 138)) || (z2 =? 168) || (z2 =? 169) || (z2 =? 175)))
  || ((z0 =? 226) && (z1 =? 129) && (z2 =? 159))
  || ((z0 =? 227) && (z1 =? 128) && (z2 =? 128)).

(** [SkipSpace] of a [Sscanf] call: spaces are skipped, a newline is an
    error. *)
Fixpoint SkipSpace (input : string) : scan_failure + string :=
  match input with
  | EmptyString => inr input
  | String c0 rest0 =>
      if Ascii.eqb c0 "010"%char then inl UnexpectedNewline
      else if is_space1 c0 then SkipSpace rest0
      else
        match rest0 with
        | EmptyString => inr input
        | String c1 rest1 =>
            if is_space2 c0 c1 then SkipSpace rest1
            else
              match rest1 with
              | EmptyString => inr input
              | String c2 rest2 =>
                  if is_space3 c0 c1 c2 then SkipSpace rest2 else inr input
              end
        end
  end.

(** [accept(digits)] repeated: the longest prefix of decimal digits and
    what follows it. *)
Fixpoint accept_digits (input : string) : string * string :=
  match input with
  | EmptyString => ("", input)
  | String c rest =>
      if is_digit c
      then let (tok, rest') := accept_digits rest in (String c tok, rest')
      else ("", input)
  end.

(** [scanNumber]: at least one digit. *)
Definition scanNumber (input : string) : scan_failure + (string * string) :=
  match input with
  | EmptyString => inl EOF
  | String c _ =>
      if is_digit c then inr (accept_digits input) else inl ExpectedInteger
  end.

(** [scanUint] at the verb [%d] into an unsigned integer of [bitSize]
    bits. *)
Definition scanUint (bitSize : Z) (input : string) : scan_failure + (Z * string) :=
  match SkipSpace input with
  | inl e => inl e
  | inr input =>
      match scanNumber input with
      | inl e => inl e
      | inr (tok, rest) =>
          let i := digits_value tok 0 in
          if 2 ^ 64 <=? i then inl ValueOutOfRange
          else if 2 ^ bitSize <=? i then inl IntegerOverflow
          else inr (i, rest)
      end
  end.

(** [scanInt] at the verb [%d] into an [int] (64 bits): an optional sign,
    then the digits. *)
Definition scanInt (input : string) : scan_failure + (Z * string) :=
  match SkipSpace input with
  | inl e => inl e
  | inr EmptyString => inl EOF
  | inr (String c rest as input) =>
      let negative := Ascii.eqb c "-"%char in
      let signed := negative || Ascii.eqb c "+"%char in
      match scanNumber (if signed then rest else input) with
      | inl e => inl e
      | inr (tok, rest') =>
          let i := digits_value tok 0 in
          let i := if negative then - i else i in
          if (i <? - 2 ^ 63) || (2 ^ 63 <=? i) then inl ValueOutOfRange
          else inr (i, rest')
      end
  end.

(** [fmt.Sscanf(input, "v=%d", &version)]; input after the number is not
    looked at. *)
Definition Sscanf_v (input : string) : scan_failure + Z :=
  match advance "v=" input with
  | inl e => inl e
  | inr input =>
      match scanInt input with
      | inl e => inl e
      | inr (version, _) => inr version
      end
  end.

(** [fmt.Sscanf(input, "m=%d,t=%d,p=%d", &m, &t, &p)] with [m] and [t]
    of type [uint32] and [p] of type [uint8]. *)
Definition Sscanf_mtp (input : string) : scan_failure + (Z * Z * Z) :=
  match advance "m=" input with
  | inl e => inl e
  | inr input =>
  match scanUint 32 input with
  | inl e => inl e
  | inr (m, input) =>
  match advance ",t=" input with
  | inl e => inl e
  | inr input =>
  match scanUint 32 input with
  | inl e => inl e
  | inr (t, input) =>
  match advance ",p=" input with
  | inl e => inl e
  | inr input =>
  match scanUint 8 input with
  | inl e => inl e
  | inr (p, _) => inr (m, t, p)
  end end end end end end.

Fixpoint all_digits (s : string) : bool :=
  match s with
  | EmptyString => true
  | String c rest => is_digit c && all_digits rest
  end.

(** The next character of the input, if any, is not a digit. *)
Definition no_digit_ahead (s : string) : bool :=
  match s with
  | EmptyString => true
  | String c _ => negb (is_digit c)
  end.

End Fmt.

(** ** [crypto/subtle] *)

Module Subtle.

(** [int((uint32(x^y) - 1) >> 31)] *)
Definition ConstantTimeByteEq (x y : Z) : Z :=
  Z.shiftr (uint32 (Z.lxor x y - 1)) 31.

(** The differences of all pairs of bytes are or-ed together; slices of
    different lengths compare unequal at once. *)
Definition ConstantTimeCompare (x y : list byte) : Z :=
  if negb (len x =? len y) then 0
  else
    let v := fold_left
               (fun v xy => Z.lor v (Z.lxor (byte_to_Z (fst xy)) (byte_to_Z (snd xy))))
               (combine x y) 0 in
    ConstantTimeByteEq v 0.

Definition differences (x y : list byte) (v : Z) : Z :=
  fold_left (fun v xy => Z.lor v (Z.lxor (byte_to_Z (fst xy)) (byte_to_Z (snd xy))))
            (combine x y) v.

End Subtle.

(** ** The parameter set *)

Record Argon2IdHash : Type := mkArgon2IdHash {
  Time : Z;      (* uint32 *)
  Memory : Z;    (* uint32 *)
  Threads : Z;   (* uint8 *)
  KeyLen : Z;    (* uint32 *)
  SaltLen : Z    (* uint32 *)
}.

(** The values a Go [Argon2IdHash] can hold. *)
Definition well_typed (a : Argon2IdHash) : Prop :=
  0 <= Time a < 2 ^ 32 /\ 0 <= Memory a < 2 ^ 32 /\ 0 <= Threads a < 2 ^ 8
  /\ 0 <= KeyLen a < 2 ^ 32 /\ 0 <= SaltLen a < 2 ^ 32.

Definition DefaultArgon2IDHash : Argon2IdHash :=
  {| Time := 2; Memory := 19 * 1024; Threads := 1; KeyLen := 32; SaltLen := 32 |}.

(** [argon2.Version], [0x13]. *)
Definition Argon2Version : Z := 19.

(** ** The world around a call: entropy, derivations, log *)

(** One call of the key derivation, with its arguments. *)
Record Derivation : Type := mkDerivation {
  d_password : list byte;
  d_salt : list byte;
  d_time : Z;
  d_memory : Z;
  d_threads : Z;
  d_keyLen : Z
}.

(** [entropy] is what [crypto/rand] will deliver (a read beyond it fails),
    [derivations] the calls of [argon2.IDKey] made so far, most recent
    first, and [logged] the lines written by [log.Printf]. [rand_fatal]
    tells which [crypto/rand] the program runs with: the one that ends the
    process when a read fails (Go 1.24 and later) or the one that returns
    the error (before). *)
Record World : Type := mkWorld {
  entropy : list byte;
  derivations : list Derivation;
  logged : list string;
  rand_fatal : bool
}.

Inductive outcome (A : Type) : Type :=
| Returned (a : A)
| Panicked
| Aborted.
Arguments Returned {A} a.
Arguments Panicked {A}.
Arguments Aborted {A}.

Definition M (A : Type) : Type := World -> outcome A * World.

Definition ret {A : Type} (a : A) : M A := fun w => (Returned a, w).

Definition bind {A B : Type} (c : M A) (k : A -> M B) : M B :=
  fun w =>
    match c w with
    | (Returned a, w') => k a w'
    | (Panicked, w') => (Panicked, w')
    | (Aborted, w') => (Aborted, w')
    end.

Notation "x <- c ;; k" := (bind c (fun x => k))
  (at level 61, c at next level, right associativity).

(** The world after one more call of the key derivation. *)
Definition note_derivation (d : Derivation) (w : World) : World :=
  {| entropy := entropy w; derivations := d :: derivations w; logged := logged w;
     rand_fatal := rand_fatal w |}.

Definition log_Printf (line : string) : M unit :=
  fun w => (Returned tt,
            {| entropy := entropy w; derivations := derivations w;
               logged := line :: logged w; rand_fatal := rand_fatal w |}).

(** [rand.Read] into a buffer of [n] bytes. When the source cannot fill the
    buffer, [crypto/rand] of Go 1.24 and later ends the process with a
    fatal error, which is no panic and cannot be recovered; the versions
    before return the error to the caller. *)
Definition rand_Read (n : nat) : M (list byte * option error) :=
  fun w =>
    if (n <=? List.length (entropy w))%nat
    then (Returned (firstn n (entropy w), None),
          {| entropy := skipn n (entropy w); derivations := derivations w;
             logged := logged w; rand_fatal := rand_fatal w |})
    else if rand_fatal w
    then (Aborted,
          {| entropy := []; derivations := derivations w; logged := logged w;
             rand_fatal := rand_fatal w |})
    else (Returned (repeat x00 n, Some ErrRandRead),
          {| entropy := []; derivations := derivations w; logged := logged w;
             rand_fatal := rand_fatal w |}).

Section Hasher.

(** [argon2.IDKey password salt time memory threads keyLen]; [None] is a
    panic of the derivation. *)
Variable IDKey : list byte -> list byte -> Z -> Z -> Z -> Z -> option (list byte).

Definition argon2_IDKey (password salt : list byte) (time memory threads keyLen : Z)
  : M (list byte) :=
  fun w =>
    let w' := note_derivation
                (mkDerivation password salt time memory threads keyLen) w in
    match IDKey password salt time memory threads keyLen with
    | Some key => (Returned key, w')
    | None => (Panicked, w')
    end.

Definition validateSaltLength (salt : list byte) (expectedSaltLen : Z)
  : M (option error) :=
  if (0 <? len salt) && negb (uint32 (len salt) =? expectedSaltLen) then
    _ <- log_Printf ("salt length is incorrect: expected "
                     ++ Fmt.FormatUint expectedSaltLen ++ " bytes, got "
                     ++ Fmt.FormatUint (len salt) ++ " bytes")%string ;;
    ret (Some ErrInvalidSaltLength)
  else ret None.

Definition encodeHashComponents (salt hash : list byte) (a : Argon2IdHash) : string :=
  let base64Salt := Base64.EncodeToString salt in
  let base64Hash := Base64.EncodeToString hash in
  ("$argon2id$v=" ++ Fmt.FormatUint Argon2Version
     ++ "$m=" ++ Fmt.FormatUint (Memory a)
     ++ ",t=" ++ Fmt.FormatUint (Time a)
     ++ ",p=" ++ Fmt.FormatUint (Threads a)
     ++ "$" ++ base64Salt ++ "$" ++ base64Hash)%string.

Definition generateBytes (length : Z) : M (list byte * option error) :=
  r <- rand_Read (Z.to_nat length) ;;
  match r with
  | (_, Some err) => ret ([], Some err)
  | (secret, None) => ret (secret, None)
  end.

Definition GenerateHash (a : Argon2IdHash) (password salt : list byte)
  : M (string * option error) :=
  err <- validateSaltLength salt (SaltLen a) ;;
  match err with
  | Some err => ret ("", Some err)
  | None =>
      r <- (if len salt =? 0 then generateBytes (SaltLen a) else ret (salt, None)) ;;
      match r with
      | (_, Some err) => ret ("", Some err)
      | (salt, None) =>
          hash <- argon2_IDKey password salt (Time a) (Memory a) (Threads a) (KeyLen a) ;;
          ret (encodeHashComponents salt hash a, None)
      end
  end.

Definition decodeHash (encodedHash : string)
  : error + (Argon2IdHash * list byte * list byte) :=
  let value := Split encodedHash in
  if negb (len value =? 6) then inl ErrInvalidEncodedHash
  else
    match Fmt.Sscanf_v (nth 2 value "") with
    | inl _ => inl ErrIncompatibleArgon2Version
    | inr version =>
    match Fmt.Sscanf_mtp (nth 3 value "") with
    | inl e => inl (ErrScan e)
    | inr (memory, time, threads) =>
    match Base64.DecodeString (nth 4 value "") with
    | inl e => inl e
    | inr salt =>
    match Base64.DecodeString (nth 5 value "") with
    | inl e => inl e
    | inr hash =>
        inr ({| Time := time; Memory := memory; Threads := threads;
                KeyLen := uint32 (len hash); SaltLen := uint32 (len salt) |},
             salt, hash)
    end end end end.

Definition VerifyHash (password encodedHash : string) : M (bool * option error) :=
  match decodeHash encodedHash with
  | inl err => ret (false, Some err)
  | inr (a, salt, hash) =>
      otherHash <- argon2_IDKey (list_byte_of_string password) salt
                     (Time a) (Memory a) (Threads a) (KeyLen a) ;;
      if Subtle.ConstantTimeCompare hash otherHash =? 1
      then ret (true, None)
      else ret (false, None)
  end.

End Hasher.

(** ** The encoded form, by parts *)

(** The cost-parameter field of an encoded hash. *)
Definition params_field (a : Argon2IdHash) : string :=
  ("m=" ++ Fmt.FormatUint (Memory a) ++ ",t=" ++ Fmt.FormatUint (Time a)
     ++ ",p=" ++ Fmt.FormatUint (Threads a))%string.

(** The parameter set [decodeHash] builds from the fields of [a], a salt and
    a digest. *)
Definition decoded_params (a : Argon2IdHash) (salt hash : list byte) : Argon2IdHash :=
  {| Time := Time a; Memory := Memory a; Threads := Threads a;
     KeyLen := uint32 (len hash); SaltLen := uint32 (len salt) |}.

(** What an encoded hash starts with, up to and including the separator in
    front of the digest. *)
Definition header (a : Argon2IdHash) (salt : list byte) : string :=
  ("$argon2id$v=19$" ++ params_field a ++ "$" ++ Base64.EncodeToString salt ++ "$")%string.

(** The derivation a call of [VerifyHash] makes for parsed parameters. *)
Definition verify_call (password : string) (a : Argon2IdHash) (salt : list byte)
  : Derivation :=
  mkDerivation (list_byte_of_string password) salt
               (Time a) (Memory a) (Threads a) (KeyLen a).

(** The world after a successful read of [n] bytes of entropy. *)
Definition after_read (n : nat) (w : World) : World :=
  {| entropy := skipn n (entropy w); derivations := derivations w;
     logged := logged w; rand_fatal := rand_fatal w |}.

(** ** What is assumed of [argon2.IDKey] *)

(** The key has the length asked for. *)
Definition argon2_key_length
  (IDKey : list byte -> list byte -> Z -> Z -> Z -> Z -> option (list byte)) : Prop :=
  forall password salt time memory threads keyLen key,
    IDKey password salt time memory threads keyLen = Some key -> len key = keyLen.

(** Zero rounds and zero lanes make the derivation panic. *)
Definition argon2_panics
  (IDKey : list byte -> list byte -> Z -> Z -> Z -> Z -> option (list byte)) : Prop :=
  forall password salt time memory threads keyLen,
    time < 1 \/ threads < 1 ->
    IDKey password salt time memory threads keyLen = None.

(** With at least one round, one lane and one byte of key the derivation
    returns. *)
Definition argon2_returns
  (IDKey : list byte -> list byte -> Z -> Z -> Z -> Z -> option (list byte)) : Prop :=
  forall password salt time memory threads keyLen,
    1 <= time -> 1 <= threads -> 1 <= keyLen < 2 ^ 32 ->
    IDKey password salt time memory threads keyLen <> None.

(** ** A small derivation function to run the definitions on

    [sample_IDKey] has the interface of [argon2.IDKey]: it panics on zero
    rounds, zero lanes or a key length outside [1 .. 2^32 - 1] and returns
    [keyLen] bytes otherwise.  The bytes are a running sum over the
    password, the salt and the cost parameters. *)

Definition sample_mix (password salt : list byte) (time memory threads : Z) : Z :=
  fold_left (fun acc b => (31 * acc + byte_to_Z b + 7) mod 65521)
            (password ++ x00 :: salt) (time + 3 * memory + 5 * threads).

Fixpoint sample_stream (n : nat) (seed : Z) : list byte :=
  match n with
  | O => []
  | S n' => byte_of_Z seed :: sample_stream n' ((seed * 75 + 74) mod 65537)
  end.

Definition sample_IDKey (password salt : list byte) (time memory threads keyLen : Z)
  : option (list byte) :=
  if (time <? 1) || (threads <? 1) || (keyLen <? 1) || (2 ^ 32 <=? keyLen) then None
  else Some (sample_stream (Z.to_nat keyLen) (sample_mix password salt time memory threads)).

Definition sample_world : World :=
  {| entropy := map byte_of_Z [17; 202; 3; 94; 250; 61; 128; 7; 33; 45; 99; 180;
                               211; 5; 76; 142; 18; 230; 64; 101; 9; 154; 87; 200;
                               31; 112; 243; 58; 166; 72; 14; 195; 220; 41];
     derivations := [];
     logged := [];
     rand_fatal := true |}.

Definition sample_password : string := "correct horse".

(** What [GenerateHash] returns for the sample password at the default
    parameters in [sample_world], and the world it leaves. *)
Definition sample_encoded : string :=
  "$argon2id$v=19$m=19456,t=2,p=1$EcoDXvo9gAchLWO00wVMjhLmQGUJmlfIH3DzOqZIDsM=$sleUX+4CsluxDjSCKPuMFTAqZbTJDeEi/owYTdmrND8=".

Definition sample_world_after : World :=
  snd (GenerateHash sample_IDKey DefaultArgon2IDHash
         (list_byte_of_string sample_password) [] sample_world).

(** [sample_encoded] with version 7. *)
Definition sample_encoded_v7 : string :=
  "$argon2id$v=7$m=19456,t=2,p=1$EcoDXvo9gAchLWO00wVMjhLmQGUJmlfIH3DzOqZIDsM=$sleUX+4CsluxDjSCKPuMFTAqZbTJDeEi/owYTdmrND8=".

(** [sample_encoded] up to its digest field, and the digest field after its
    first character. *)
Definition sample_header : string :=
  "$argon2id$v=19$m=19456,t=2,p=1$EcoDXvo9gAchLWO00wVMjhLmQGUJmlfIH3DzOqZIDsM=$".

Definition sample_digest_tail : string := "leUX+4CsluxDjSCKPuMFTAqZbTJDeEi/owYTdmrND8=".

(** ** Keys and passwords to count *)

Definition all_bytes : list byte := map byte_of_Z (map Z.of_nat (seq 0 256)).

(** All keys of [k] bytes. *)
Fixpoint all_keys (k : nat) : list (list byte) :=
  match k with
  | O => [[]]
  | S k' => flat_map (fun b => map (cons b) (all_keys k')) all_bytes
  end.

(** The first [n] passwords of zero bytes: empty, one byte, two bytes ... *)
Definition zero_passwords (n : nat) : list (list byte) := map (repeat x00) (seq 0 n).

(** ** Statements about encoded hashes *)

(** Two encoded strings with the same fields but for the version field. *)
Definition differ_only_in_version (e1 e2 : string) : Prop :=
  List.length (Split e1) = List.length (Split e2)
  /\ forall i, i <> 2%nat -> nth i (Split e1) "" = nth i (Split e2) "".

(** A record with zero costs and empty salt and digest. *)
Definition zero_cost_hash : string := "$argon2id$v=19$m=0,t=0,p=0$$".

(** A salt of [2^32 + 32] bytes. *)
Definition oversized_salt : list byte := repeat x00 (Z.to_nat 4294967328).

(** The claim of rejection: a hash generated from one password never
    verifies another. *)
Definition rejects_other_passwords
  (IDKey : list byte -> list byte -> Z -> Z -> Z -> Z -> option (list byte)) : Prop :=
  forall a p1 p2 w e w',
    well_typed a -> p1 <> p2 ->
    GenerateHash IDKey a (list_byte_of_string p1) [] w = (Returned (e, None), w') ->
    fst (VerifyHash IDKey p2 e w') = Returned (false, None).

(** The claim of tamper detection: after a change of one byte of the last
    field of a hash that verifies, verification returns [(false, nil)]. *)
Definition detects_digest_tampering
  (IDKey : list byte -> list byte -> Z -> Z -> Z -> Z -> option (list byte)) : Prop :=
  forall password pre c c' post w,
    no_sep (String c post) = true -> c' <> c ->
    fst (VerifyHash IDKey password (pre ++ String c post) w) = Returned (true, None) ->
    fst (VerifyHash IDKey password (pre ++ String c' post) w) = Returned (false, None).

(** A weaker form of it: after such a change verification does not return
    [(true, nil)]. *)
Definition rejects_changed_digest
  (IDKey : list byte -> list byte -> Z -> Z -> Z -> Z -> option (list byte)) : Prop :=
  forall password pre c c' post w,
    no_sep (String c post) = true -> c' <> c ->
    fst (VerifyHash IDKey password (pre ++ String c post) w) = Returned (true, None) ->
    fst (VerifyHash IDKey password (pre ++ String c' post) w) <> Returned (true, None).

(** The claim about the results of verification: once the string decodes,
    [VerifyHash] returns [(true, nil)] exactly when the digest derived from
    the password is the stored one, and [(false, nil)] in every other
    case. *)
Definition verdict_whenever_parsed
  (IDKey : list byte -> list byte -> Z -> Z -> Z -> Z -> option (list byte)) : Prop :=
  forall password e w a salt hash,
    decodeHash e = inr (a, salt, hash) ->
    (fst (VerifyHash IDKey password e w) = Returned (true, None)
     <-> IDKey (list_byte_of_string password) salt
               (Time a) (Memory a) (Threads a) (KeyLen a) = Some hash)
    /\ (IDKey (list_byte_of_string password) salt
              (Time a) (Memory a) (Threads a) (KeyLen a) <> Some hash ->
        fst (VerifyHash IDKey password e w) = Returned (false, None)).

(** A record with zero rounds, the salt [saltsalt] and a digest of three
    zero bytes. *)
Definition zero_rounds_hash : string := "$argon2id$v=19$m=8,t=0,p=1$c2FsdHNhbHQ=$AAAA".

(** The last group of the encoding of a slice that ends in the two bytes
    [b0], [b1], with the lowest bit of its third character set: the bit is
    one of the two that stand for no bit of the bytes. *)
Definition relaxed_third (b0 b1 : byte) : ascii :=
  Base64.encode
    (Z.lor (Base64.six (Z.lor (Z.shiftl (byte_to_Z b0) 16) (Z.shiftl (byte_to_Z b1) 8)) 6) 1).

(** ** Further statements about encoded hashes *)

(** Two encoded strings with the same fields from the version field on:
    they may differ in what stands before the first separator and in the
    scheme field. *)
Definition differ_before_version (e1 e2 : string) : Prop :=
  List.length (Split e1) = List.length (Split e2)
  /\ forall i, (2 <= i)%nat -> nth i (Split e1) "" = nth i (Split e2) "".

(** The number of separators in a string. *)
Fixpoint count_sep (s : string) : Z :=
  match s with
  | EmptyString => 0
  | String c rest => (if Ascii.eqb c sep then 1 else 0) + count_sep rest
  end.

(** The cost parameters fit their Go types. *)
Definition costs_in_range (a : Argon2IdHash) : Prop :=
  0 <= Memory a < 2 ^ 32 /\ 0 <= Time a < 2 ^ 32 /\ 0 <= Threads a < 2 ^ 8.

(** An encoded hash with text after the version number and after the last
    cost parameter. *)
Definition with_trailing_text (salt hash : list byte) (a : Argon2IdHash)
           (after_version after_costs : string) : string :=
  ("$argon2id$v=19" ++ after_version ++ "$" ++ params_field a ++ after_costs
     ++ "$" ++ Base64.EncodeToString salt ++ "$" ++ Base64.EncodeToString hash)%string.

(** An input of [decodeHash] in the encoded form, its three cost numbers
    written in decimal; they may be wider than the variables they are
    scanned into. *)
Definition hash_with_costs (m t p : Z) (salt hash : list byte) : string :=
  ("$argon2id$v=19$m=" ++ Fmt.FormatUint m ++ ",t=" ++ Fmt.FormatUint t
     ++ ",p=" ++ Fmt.FormatUint p
     ++ "$" ++ Base64.EncodeToString salt ++ "$" ++ Base64.EncodeToString hash)%string.

(** The line [validateSaltLength] writes to the log. *)
Definition salt_length_line (expectedSaltLen : Z) (salt : list byte) : string :=
  ("salt length is incorrect: expected "
     ++ Fmt.FormatUint expectedSaltLen ++ " bytes, got "
     ++ Fmt.FormatUint (len salt) ++ " bytes")%string.

(** ** More sample values *)

(** [sample_encoded] with another scheme and with text in front. *)
Definition sample_other_scheme : string :=
  "junk$bcrypt$v=19$m=19456,t=2,p=1$EcoDXvo9gAchLWO00wVMjhLmQGUJmlfIH3DzOqZIDsM=$sleUX+4CsluxDjSCKPuMFTAqZbTJDeEi/owYTdmrND8=".

(** The salt of [sample_encoded], now given by the caller. *)
Definition sample_salt : list byte := firstn 32 (entropy sample_world).

Definition sample_world_given_salt : World :=
  snd (GenerateHash sample_IDKey DefaultArgon2IDHash
         (list_byte_of_string sample_password) sample_salt sample_world).

(** The key of the sample password with the empty salt. *)
Definition sample_key_no_salt : list byte :=
  sample_stream 32 (sample_mix (list_byte_of_string sample_password) [] 2 (19 * 1024) 1).

(** * Facts *)

(** ** Bytes and bits *)

Lemma byte_to_Z_range (b : byte) : 0 <= byte_to_Z b < 256.
Proof.
  unfold byte_to_Z. pose proof (Byte.to_N_bounded b). lia.
Qed.

Lemma byte_of_to_Z (b : byte) : byte_of_Z (byte_to_Z b) = b.
Proof.
  unfold byte_of_Z. rewrite Z.mod_small by apply byte_to_Z_range.
  unfold byte_to_Z. rewrite N2Z.id, Byte.of_to_N. reflexivity.
Qed.

Lemma byte_of_Z_mod (z : Z) : byte_of_Z (z mod 2 ^ 8) = byte_of_Z z.
Proof.
  unfold byte_of_Z. change (2 ^ 8) with 256. rewrite Z.mod_mod by lia. reflexivity.
Qed.

Lemma high_bits (v n : Z) :
  0 <= v < 2 ^ n -> forall i, n <= i -> Z.testbit v i = false.
Proof.
  intros H i Hi. destruct (Z.eq_dec v 0) as [->|Hn]; [apply Z.testbit_0_l|].
  assert (0 <= n) by (destruct n; simpl in H; lia).
  apply Z.bits_above_log2; [lia|].
  apply Z.lt_le_trans with n; [apply Z.log2_lt_pow2|]; lia.
Qed.

(** Equalities between bit expressions over values with known widths: bit by
    bit, the bits above a width being zero by a hypothesis of [high_bits]. *)
Ltac same_bits :=
  eapply Z.bits_inj'; intros ?i ?Hi;
  Z.rewrite_bitwise; Z.destruct_ltbs;
  repeat match goal with
         | H : forall i, _ <= i -> Z.testbit ?v i = false |- context [Z.testbit ?v ?j] =>
             rewrite (H j) by lia
         | |- context [Z.testbit ?v ?j] =>
             rewrite (Z.testbit_neg_r v j) by lia
         end;
  repeat match goal with
         | i : Z |- context [Z.testbit _ ?j] =>
             progress (replace j with i by lia)
         | i : Z |- context [Z.testbit _ ?j] =>
             progress (replace j with (i + 8) by lia)
         | i : Z |- context [Z.testbit _ ?j] =>
             progress (replace j with (i + 16) by lia)
         end;
  try (exfalso; lia); try btauto.

(** ** Strings and fields *)

Lemma append_assoc (s t u : string) : ((s ++ t) ++ u = s ++ (t ++ u))%string.
Proof. induction s as [|c s IH]; [reflexivity|]. cbn. rewrite IH. reflexivity. Qed.

Lemma append_nil_r (s : string) : (s ++ "")%string = s.
Proof. induction s as [|c s IH]; [reflexivity|]. cbn. rewrite IH. reflexivity. Qed.

Lemma no_sep_app s t : no_sep (s ++ t)%string = no_sep s && no_sep t.
Proof.
  induction s as [|c s IH]; [reflexivity|]. cbn. rewrite IH, andb_assoc. reflexivity.
Qed.

Lemma Split_nonempty s : Split s <> [].
Proof.
  destruct s as [|c s]; cbn; [discriminate|].
  destruct (Ascii.eqb c sep); [discriminate|]. destruct (Split s); discriminate.
Qed.

Lemma Split_no_sep s : no_sep s = true -> Split s = [s].
Proof.
  induction s as [|c s IH]; [reflexivity|]. cbn. intros H.
  apply andb_prop in H as [Hc Hs]. apply negb_true_iff in Hc.
  rewrite Hc, (IH Hs). reflexivity.
Qed.

Lemma Split_field s t :
  no_sep s = true -> Split (s ++ String sep t) = s :: Split t.
Proof.
  induction s as [|c s IH]; [reflexivity|]. cbn. intros H.
  apply andb_prop in H as [Hc Hs]. apply negb_true_iff in Hc.
  rewrite Hc, (IH Hs). reflexivity.
Qed.

Module Base64Facts.
Import Base64.

Lemma six_range val shift : 0 <= six val shift < 64.
Proof.
  unfold six. change 63 with (Z.ones 6). rewrite Z.land_ones by lia.
  apply Z.mod_pos_bound. reflexivity.
Qed.

Lemma quantum_range b0 b1 b2 :
  0 <= b0 < 256 -> 0 <= b1 < 256 -> 0 <= b2 < 256 ->
  0 <= quantum b0 b1 b2 < 2 ^ 24.
Proof.
  intros H0 H1 H2. unfold quantum.
  assert (Hnn : 0 <= Z.lor (Z.lor (Z.shiftl b0 16) (Z.shiftl b1 8)) b2).
  { rewrite !Z.lor_nonneg, !Z.shiftl_nonneg. lia. }
  split; [exact Hnn|].
  destruct (Z.eq_dec (Z.lor (Z.lor (Z.shiftl b0 16) (Z.shiftl b1 8)) b2) 0) as [->|Hz];
    [reflexivity|].
  apply Z.log2_lt_pow2; [lia|].
  pose proof (Z.log2_lor (Z.lor (Z.shiftl b0 16) (Z.shiftl b1 8)) b2) as L1.
  pose proof (Z.log2_lor (Z.shiftl b0 16) (Z.shiftl b1 8)) as L2.
  assert (Z.log2 b2 < 8).
  { destruct (Z.eq_dec b2 0) as [->|]; [reflexivity|apply Z.log2_lt_pow2; lia]. }
  assert (Z.log2 (Z.shiftl b1 8) < 16).
  { destruct (Z.eq_dec b1 0) as [->|]; [reflexivity|].
    rewrite Z.log2_shiftl by lia.
    assert (Z.log2 b1 < 8) by (apply Z.log2_lt_pow2; lia). lia. }
  assert (Z.log2 (Z.shiftl b0 16) < 24).
  { destruct (Z.eq_dec b0 0) as [->|]; [reflexivity|].
    rewrite Z.log2_shiftl by lia.
    assert (Z.log2 b0 < 8) by (apply Z.log2_lt_pow2; lia). lia. }
  assert (0 <= Z.lor (Z.shiftl b0 16) (Z.shiftl b1 8))
    by (rewrite Z.lor_nonneg, !Z.shiftl_nonneg; lia).
  assert (0 <= Z.shiftl b0 16) by (rewrite Z.shiftl_nonneg; lia).
  assert (0 <= Z.shiftl b1 8) by (rewrite Z.shiftl_nonneg; lia).
  specialize (L1 ltac:(lia) ltac:(lia)). specialize (L2 ltac:(lia) ltac:(lia)).
  lia.
Qed.

Lemma of_sextets_four v :
  0 <= v < 2 ^ 24 ->
  of_sextets (six v 18) (six v 12) (six v 6) (six v 0) = v.
Proof.
  intros H. pose proof (high_bits v 24 H) as Hv.
  unfold of_sextets, six. change 63 with (Z.ones 6). same_bits.
Qed.

Lemma of_sextets_three_hi v :
  0 <= v < 2 ^ 24 ->
  Z.shiftr (of_sextets (six v 18) (six v 12) (six v 6) 0) 16 mod 2 ^ 8
  = Z.shiftr v 16 mod 2 ^ 8.
Proof.
  intros H. pose proof (high_bits v 24 H) as Hv.
  unfold of_sextets, six. change 63 with (Z.ones 6). same_bits.
Qed.

Lemma of_sextets_three_mid v :
  0 <= v < 2 ^ 24 ->
  Z.shiftr (of_sextets (six v 18) (six v 12) (six v 6) 0) 8 mod 2 ^ 8
  = Z.shiftr v 8 mod 2 ^ 8.
Proof.
  intros H. pose proof (high_bits v 24 H) as Hv.
  unfold of_sextets, six. change 63 with (Z.ones 6). same_bits.
Qed.

Lemma of_sextets_two_hi v :
  0 <= v < 2 ^ 24 ->
  Z.shiftr (of_sextets (six v 18) (six v 12) 0 0) 16 mod 2 ^ 8
  = Z.shiftr v 16 mod 2 ^ 8.
Proof.
  intros H. pose proof (high_bits v 24 H) as Hv.
  unfold of_sextets, six. change 63 with (Z.ones 6). same_bits.
Qed.

Lemma quantum_hi b0 b1 b2 :
  0 <= b0 < 2 ^ 8 -> 0 <= b1 < 2 ^ 8 -> 0 <= b2 < 2 ^ 8 ->
  Z.shiftr (quantum b0 b1 b2) 16 mod 2 ^ 8 = b0.
Proof.
  intros H0 H1 H2.
  pose proof (high_bits b0 8 H0). pose proof (high_bits b1 8 H1).
  pose proof (high_bits b2 8 H2). unfold quantum. same_bits.
Qed.

Lemma quantum_mid b0 b1 b2 :
  0 <= b0 < 2 ^ 8 -> 0 <= b1 < 2 ^ 8 -> 0 <= b2 < 2 ^ 8 ->
  Z.shiftr (quantum b0 b1 b2) 8 mod 2 ^ 8 = b1.
Proof.
  intros H0 H1 H2.
  pose proof (high_bits b0 8 H0). pose proof (high_bits b1 8 H1).
  pose proof (high_bits b2 8 H2). unfold quantum. same_bits.
Qed.

Lemma quantum_lo b0 b1 b2 :
  0 <= b0 < 2 ^ 8 -> 0 <= b1 < 2 ^ 8 -> 0 <= b2 < 2 ^ 8 ->
  quantum b0 b1 b2 mod 2 ^ 8 = b2.
Proof.
  intros H0 H1 H2.
  pose proof (high_bits b0 8 H0). pose proof (high_bits b1 8 H1).
  pose proof (high_bits b2 8 H2). unfold quantum. same_bits.
Qed.

Lemma decodeMap_encode i : 0 <= i < 64 -> decodeMap (encode i) = i.
Proof.
  intros H. rewrite <- (Z2Nat.id i) by lia.
  assert (Hn : (Z.to_nat i < 64)%nat) by lia.
  revert Hn. generalize (Z.to_nat i). intros n Hn.
  do 64 (destruct n as [|n]; [reflexivity|]). lia.
Qed.

(** A character of the alphabet is neither a newline, nor the padding
    character, nor the field separator, and stands for a sextet. *)
Lemma alphabet_char c :
  decodeMap c <> 255 ->
  is_newline c = false /\ Ascii.eqb c padChar = false
  /\ Ascii.eqb c sep = false /\ 0 <= decodeMap c < 64.
Proof.
  destruct c as [b0 b1 b2 b3 b4 b5 b6 b7].
  destruct b0, b1, b2, b3, b4, b5, b6, b7; vm_compute;
    intros H; repeat split; congruence.
Qed.

Lemma encode_in_alphabet i : 0 <= i < 64 -> decodeMap (encode i) <> 255.
Proof. intros H. rewrite decodeMap_encode by exact H. lia. Qed.

Lemma decode_from_sextet c rest si j dbuf :
  decodeMap c <> 255 ->
  decode_from (String c rest) si j dbuf =
  match j with
  | 3%nat =>
      match decode_from rest (si + 1) 0 [] with
      | inr more => inr (quantum_bytes (dbuf ++ [decodeMap c]) 4 ++ more)
      | inl e => inl e
      end
  | _ => decode_from rest (si + 1) (S j) (dbuf ++ [decodeMap c])
  end.
Proof.
  intros H. apply Z.eqb_neq in H. cbn [decode_from]. rewrite H. reflexivity.
Qed.

Lemma decode_from_six v shift rest si j dbuf :
  decode_from (String (sextet v shift) rest) si j dbuf =
  match j with
  | 3%nat =>
      match decode_from rest (si + 1) 0 [] with
      | inr more => inr (quantum_bytes (dbuf ++ [six v shift]) 4 ++ more)
      | inl e => inl e
      end
  | _ => decode_from rest (si + 1) (S j) (dbuf ++ [six v shift])
  end.
Proof.
  unfold sextet. fold (six v shift).
  rewrite decode_from_sextet by (apply encode_in_alphabet, six_range).
  rewrite decodeMap_encode by apply six_range. reflexivity.
Qed.

Lemma decode_from_pad3 rest si dbuf :
  decode_from (String padChar rest) si 3 dbuf
  = after_padding rest (si + 1) (quantum_bytes dbuf 3).
Proof. reflexivity. Qed.

Lemma decode_from_pad2 rest si dbuf :
  decode_from (String padChar (String padChar rest)) si 2 dbuf
  = after_padding rest (si + 1 + 1) (quantum_bytes dbuf 2).
Proof. reflexivity. Qed.

Lemma quantum_bytes_four b0 b1 b2 :
  let v := quantum (byte_to_Z b0) (byte_to_Z b1) (byte_to_Z b2) in
  quantum_bytes [six v 18; six v 12; six v 6; six v 0] 4 = [b0; b1; b2].
Proof.
  intros v.
  pose proof (byte_to_Z_range b0) as R0. pose proof (byte_to_Z_range b1) as R1.
  pose proof (byte_to_Z_range b2) as R2.
  assert (Hv : 0 <= v < 2 ^ 24) by (apply quantum_range; assumption).
  unfold quantum_bytes. cbn [nth firstn Nat.sub].
  fold (of_sextets (six v 18) (six v 12) (six v 6) (six v 0)).
  rewrite of_sextets_four by exact Hv.
  rewrite <- (byte_of_Z_mod (Z.shiftr v 16)), <- (byte_of_Z_mod (Z.shiftr v 8)),
    <- (byte_of_Z_mod v).
  unfold v. rewrite quantum_hi, quantum_mid, quantum_lo by assumption.
  rewrite !byte_of_to_Z. reflexivity.
Qed.

Lemma quantum_bytes_three b0 b1 :
  let v := Z.lor (Z.shiftl (byte_to_Z b0) 16) (Z.shiftl (byte_to_Z b1) 8) in
  quantum_bytes [six v 18; six v 12; six v 6] 3 = [b0; b1].
Proof.
  intros v.
  pose proof (byte_to_Z_range b0) as R0. pose proof (byte_to_Z_range b1) as R1.
  assert (E : v = quantum (byte_to_Z b0) (byte_to_Z b1) 0)
    by (unfold v, quantum; rewrite Z.lor_0_r; reflexivity).
  assert (Hv : 0 <= v < 2 ^ 24) by (rewrite E; apply quantum_range; lia).
  unfold quantum_bytes. cbn [nth firstn Nat.sub].
  fold (of_sextets (six v 18) (six v 12) (six v 6) 0).
  rewrite <- (byte_of_Z_mod (Z.shiftr _ 16)), <- (byte_of_Z_mod (Z.shiftr _ 8)).
  rewrite of_sextets_three_hi, of_sextets_three_mid by exact Hv.
  rewrite E, quantum_hi, quantum_mid by lia.
  rewrite !byte_of_to_Z. reflexivity.
Qed.

Lemma quantum_bytes_two b0 :
  let v := Z.shiftl (byte_to_Z b0) 16 in
  quantum_bytes [six v 18; six v 12] 2 = [b0].
Proof.
  intros v.
  pose proof (byte_to_Z_range b0) as R0.
  assert (E : v = quantum (byte_to_Z b0) 0 0)
    by (unfold v, quantum; rewrite Z.shiftl_0_l, !Z.lor_0_r; reflexivity).
  assert (Hv : 0 <= v < 2 ^ 24) by (rewrite E; apply quantum_range; lia).
  unfold quantum_bytes. cbn [nth firstn Nat.sub].
  fold (of_sextets (six v 18) (six v 12) 0 0).
  rewrite <- (byte_of_Z_mod (Z.shiftr _ 16)).
  rewrite of_sextets_two_hi by exact Hv.
  rewrite E, quantum_hi by lia.
  rewrite byte_of_to_Z. reflexivity.
Qed.

(** Induction over a slice three bytes at a time, as [Encode] reads it. *)
Lemma list_ind3 {A : Type} (P : list A -> Prop) :
  P [] -> (forall a, P [a]) -> (forall a b, P [a; b]) ->
  (forall a b c l, P l -> P (a :: b :: c :: l)) ->
  forall l, P l.
Proof.
  intros H0 H1 H2 H3.
  fix IH 1. intros [|a [|b [|c l]]]; [assumption|apply H1|apply H2|].
  apply H3, IH.
Qed.

Lemma decode_from_EncodeToString src :
  forall si, decode_from (EncodeToString src) si 0 [] = inr src.
Proof.
  induction src as [|b0|b0 b1|b0 b1 b2 rest IH] using list_ind3; intros si.
  - reflexivity.
  - cbn [EncodeToString]. rewrite !decode_from_six. cbn [app].
    rewrite decode_from_pad2. unfold after_padding. cbn [skip_newlines].
    rewrite quantum_bytes_two. reflexivity.
  - cbn [EncodeToString]. rewrite !decode_from_six. cbn [app].
    rewrite decode_from_pad3. unfold after_padding. cbn [skip_newlines].
    rewrite quantum_bytes_three. reflexivity.
  - cbn [EncodeToString]. rewrite !decode_from_six. cbn [app].
    rewrite IH, quantum_bytes_four. reflexivity.
Qed.

(** Decoding undoes encoding. *)
Lemma DecodeString_EncodeToString src :
  DecodeString (EncodeToString src) = inr src.
Proof. apply decode_from_EncodeToString. Qed.

Lemma sextet_in_alphabet v shift : in_alphabet (sextet v shift) = true.
Proof.
  unfold in_alphabet, sextet. apply negb_true_iff, Z.eqb_neq.
  apply encode_in_alphabet. apply six_range.
Qed.

Lemma in_alphabet_not_sep c : in_alphabet c = true -> Ascii.eqb c sep = false.
Proof.
  unfold in_alphabet. intros H. apply negb_true_iff, Z.eqb_neq in H.
  apply alphabet_char in H. tauto.
Qed.

Lemma in_alphabet_not_pad c : in_alphabet c = true -> Ascii.eqb c padChar = false.
Proof.
  unfold in_alphabet. intros H. apply negb_true_iff, Z.eqb_neq in H.
  apply alphabet_char in H. tauto.
Qed.

(** Encoded text holds no field separator. *)
Lemma EncodeToString_no_sep src : no_sep (EncodeToString src) = true.
Proof.
  induction src as [|b0|b0 b1|b0 b1 b2 rest IH] using list_ind3;
    cbn [EncodeToString no_sep];
    rewrite ?(in_alphabet_not_sep _ (sextet_in_alphabet _ _)), ?IH; reflexivity.
Qed.

(** Encoded text is in the standard alphabet, padded to groups of four. *)
Lemma EncodeToString_std_padded src : std_padded (EncodeToString src) = true.
Proof.
  induction src as [|b0|b0 b1|b0 b1 b2 rest IH] using list_ind3;
    cbn [EncodeToString std_padded].
  - reflexivity.
  - rewrite !sextet_in_alphabet. reflexivity.
  - rewrite !sextet_in_alphabet,
      (in_alphabet_not_pad _ (sextet_in_alphabet _ 6)). reflexivity.
  - rewrite !sextet_in_alphabet.
    destruct (EncodeToString rest) eqn:E.
    + rewrite (in_alphabet_not_pad _ (sextet_in_alphabet _ 6)). reflexivity.
    + rewrite IH. reflexivity.
Qed.

(** The only error of the decoder is [CorruptInputError]. *)
Lemma after_padding_error src si out e :
  after_padding src si out = inl e -> exists offset, e = CorruptInputError offset.
Proof.
  unfold after_padding. destruct (skip_newlines src si) as [rest si'].
  destruct rest; [discriminate|]. intros E. injection E as <-. eauto.
Qed.

Lemma decode_from_error src :
  forall si j dbuf e,
    decode_from src si j dbuf = inl e -> exists offset, e = CorruptInputError offset.
Proof.
  induction src as [|c rest IH]; intros si j dbuf e.
  - cbn [decode_from]. destruct j; [discriminate|].
    intros E. injection E as <-. eauto.
  - cbn [decode_from]. destruct (negb (decodeMap c =? 255)).
    + destruct j as [|[|[|[|j]]]]; try apply IH.
      destruct (decode_from rest (si + 1) 0 []) as [e'|more] eqn:D; [|discriminate].
      intros E. injection E as <-. eapply IH, D.
    + destruct (is_newline c); [apply IH|].
      destruct (negb (Ascii.eqb c padChar)); [intros E; injection E as <-; eauto|].
      destruct j as [|[|[|j]]]; try (intros E; injection E as <-; eauto; fail);
        try apply after_padding_error.
      destruct (skip_newlines rest (si + 1)) as [rest' si'].
      destruct rest' as [|c' rest'']; [intros E; injection E as <-; eauto|].
      destruct (negb (Ascii.eqb c' padChar)); [intros E; injection E as <-; eauto|].
      apply after_padding_error.
Qed.

Lemma DecodeString_error s e :
  DecodeString s = inl e -> exists offset, e = CorruptInputError offset.
Proof. apply decode_from_error. Qed.

End Base64Facts.

Module FmtFacts.
Import Fmt.

Lemma digit_char_spec d :
  0 <= d < 10 -> is_digit (digit_char d) = true /\ digit_value (digit_char d) = d.
Proof.
  intros H.
  assert (E : d = 0 \/ d = 1 \/ d = 2 \/ d = 3 \/ d = 4 \/ d = 5 \/ d = 6
              \/ d = 7 \/ d = 8 \/ d = 9) by lia.
  repeat destruct E as [->|E]; try subst d; split; reflexivity.
Qed.

Lemma is_digit_no_sep c : is_digit c = true -> Ascii.eqb c sep = false.
Proof.
  destruct c as [b0 b1 b2 b3 b4 b5 b6 b7].
  destruct b0, b1, b2, b3, b4, b5, b6, b7; vm_compute; congruence.
Qed.

Lemma all_digits_no_sep s : all_digits s = true -> no_sep s = true.
Proof.
  induction s as [|c s IH]; [reflexivity|]. cbn. intros H.
  apply andb_prop in H as [Hc Hs]. rewrite (is_digit_no_sep _ Hc), (IH Hs). reflexivity.
Qed.

Lemma all_digits_app s t : all_digits (s ++ t)%string = all_digits s && all_digits t.
Proof.
  induction s as [|c s IH]; [reflexivity|]. cbn. rewrite IH, andb_assoc. reflexivity.
Qed.

Lemma digits_value_app s t acc :
  digits_value (s ++ t)%string acc = digits_value t (digits_value s acc).
Proof.
  revert acc. induction s as [|c s IH]; intros acc; [reflexivity|]. cbn. apply IH.
Qed.

(** What [format_digits] writes in front of [acc]: a non-empty string of
    digits whose value is [n]. *)
Lemma format_digits_spec fuel :
  forall n acc, 0 <= n < 10 ^ Z.of_nat (S fuel) ->
  exists tok, format_digits (S fuel) n acc = (tok ++ acc)%string
              /\ all_digits tok = true /\ tok <> ""
              /\ forall a, digits_value tok a = a * 10 ^ strlen tok + n.
Proof.
  induction fuel as [|fuel IH]; intros n acc Hn.
  - assert (Hlt : n < 10) by (change (10 ^ Z.of_nat 1) with 10 in Hn; lia).
    destruct (digit_char_spec (n mod 10)) as [Hd Hv]; [apply Z.mod_pos_bound; lia|].
    exists (String (digit_char (n mod 10)) "").
    cbn [format_digits]. apply Z.ltb_lt in Hlt. rewrite Hlt.
    apply Z.ltb_lt in Hlt. rewrite Z.mod_small in * by lia.
    repeat split; cbn [all_digits append]; try rewrite Hd; try reflexivity;
      try discriminate.
    intros a. cbn [digits_value]. rewrite Hv.
    change (strlen (String (digit_char n) "")) with 1. change (10 ^ 1) with 10. lia.
  - destruct (digit_char_spec (n mod 10)) as [Hd Hv]; [apply Z.mod_pos_bound; lia|].
    change (format_digits (S (S fuel)) n acc)
      with (if n <? 10 then String (digit_char (n mod 10)) acc
            else format_digits (S fuel) (n / 10) (String (digit_char (n mod 10)) acc)).
    destruct (Z.ltb_spec n 10) as [Hlt|Hge].
    + exists (String (digit_char (n mod 10)) "").
      rewrite Z.mod_small in * by lia.
      repeat split; cbn [all_digits append]; try rewrite Hd; try reflexivity;
        try discriminate.
      intros a. cbn [digits_value]. rewrite Hv.
      change (strlen (String (digit_char n) "")) with 1. change (10 ^ 1) with 10. lia.
    + destruct (IH (n / 10) (String (digit_char (n mod 10)) acc)) as (tok & E & Hall & Hne & Hval).
      { split; [apply Z.div_pos; lia|].
        apply Z.div_lt_upper_bound; [lia|].
        replace (Z.of_nat (S (S fuel))) with (Z.succ (Z.of_nat (S fuel))) in Hn by lia.
        rewrite Z.pow_succ_r in Hn by lia. lia. }
      exists (tok ++ String (digit_char (n mod 10)) "")%string.
      rewrite E, append_assoc. cbn [append].
      repeat split.
      * rewrite all_digits_app, Hall. cbn. rewrite Hd. reflexivity.
      * destruct tok; [congruence|discriminate].
      * intros a. rewrite digits_value_app, Hval. cbn [digits_value]. rewrite Hv.
        assert (L : strlen (tok ++ String (digit_char (n mod 10)) "")
                    = Z.succ (strlen tok)).
        { unfold strlen. clear. induction tok as [|c t IHt]; [reflexivity|].
          cbn [append String.length]. lia. }
        rewrite L, Z.pow_succ_r by (unfold strlen; lia).
        pose proof (Z.div_mod n 10 ltac:(lia)). lia.
Qed.

Lemma FormatUint_spec n :
  0 <= n < 2 ^ 64 ->
  all_digits (FormatUint n) = true /\ FormatUint n <> ""
  /\ digits_value (FormatUint n) 0 = n.
Proof.
  intros H. unfold FormatUint.
  destruct (format_digits_spec 19 n "") as (tok & E & Hall & Hne & Hval).
  { change (10 ^ Z.of_nat 20) with 100000000000000000000.
    change (2 ^ 64) with 18446744073709551616 in H. lia. }
  rewrite append_nil_r in E. rewrite E. repeat split; try assumption.
  rewrite Hval. lia.
Qed.

(** The output of [%d] consists of digits whatever the value. *)
Lemma format_digits_all_digits fuel :
  forall n acc, all_digits (format_digits fuel n acc) = all_digits acc.
Proof.
  induction fuel as [|fuel IH]; intros n acc; [reflexivity|].
  destruct (digit_char_spec (n mod 10)) as [Hd _]; [apply Z.mod_pos_bound; lia|].
  cbn [format_digits]. destruct (n <? 10).
  - cbn. rewrite Hd. reflexivity.
  - rewrite IH. cbn. rewrite Hd. reflexivity.
Qed.

Lemma FormatUint_digits n : all_digits (FormatUint n) = true.
Proof. unfold FormatUint. rewrite format_digits_all_digits. reflexivity. Qed.

Lemma FormatUint_no_sep n : no_sep (FormatUint n) = true.
Proof. apply all_digits_no_sep, FormatUint_digits. Qed.

Lemma accept_digits_app tok rest :
  all_digits tok = true -> no_digit_ahead rest = true ->
  accept_digits (tok ++ rest) = (tok, rest).
Proof.
  intros Hall Hrest. induction tok as [|c tok IH].
  - destruct rest as [|c r]; [reflexivity|]. cbn in *.
    apply negb_true_iff in Hrest. rewrite Hrest. reflexivity.
  - cbn in *. apply andb_prop in Hall as [Hc Hall]. rewrite Hc, (IH Hall). reflexivity.
Qed.

Lemma SkipSpace_digit c rest :
  is_digit c = true -> SkipSpace (String c rest) = inr (String c rest).
Proof.
  intros H. unfold is_digit in H. apply andb_prop in H as [Hlo Hhi].
  apply Z.leb_le in Hlo, Hhi.
  assert (N : Ascii.eqb c "010"%char = false).
  { apply Ascii.eqb_neq. intros ->. change (char_to_Z "010"%char) with 10 in Hlo. lia. }
  assert (S1 : is_space1 c = false).
  { unfold is_space1. cbv zeta.
    repeat match goal with
           | |- context [?a =? ?b] => destruct (Z.eqb_spec a b); [lia|]
           end.
    reflexivity. }
  assert (S2 : forall c1, is_space2 c c1 = false).
  { intros c1. unfold is_space2. cbv zeta.
    destruct (Z.eqb_spec (char_to_Z c) 194); [lia|reflexivity]. }
  assert (S3 : forall c1 c2, is_space3 c c1 c2 = false).
  { intros c1 c2. unfold is_space3. cbv zeta.
    destruct (Z.eqb_spec (char_to_Z c) 225); [lia|].
    destruct (Z.eqb_spec (char_to_Z c) 226); [lia|].
    destruct (Z.eqb_spec (char_to_Z c) 227); [lia|reflexivity]. }
  cbn [SkipSpace]. rewrite N, S1.
  destruct rest as [|c1 [|c2 rest]]; rewrite ?S2, ?S3; reflexivity.
Qed.

Lemma scanUint_FormatUint bitSize n rest :
  0 <= bitSize <= 64 -> 0 <= n < 2 ^ bitSize -> no_digit_ahead rest = true ->
  scanUint bitSize (FormatUint n ++ rest) = inr (n, rest).
Proof.
  intros Hb Hn Hrest.
  assert (Hn64 : 0 <= n < 2 ^ 64).
  { split; [lia|]. apply Z.lt_le_trans with (2 ^ bitSize); [lia|].
    apply Z.pow_le_mono_r; lia. }
  destruct (FormatUint_spec n Hn64) as (Hall & Hne & Hval).
  unfold scanUint.
  destruct (FormatUint n) as [|c tok] eqn:E; [congruence|].
  cbn [append]. cbn [all_digits] in Hall. apply andb_prop in Hall as [Hc Hall].
  rewrite (SkipSpace_digit _ _ Hc). unfold scanNumber. rewrite Hc.
  change (String c (tok ++ rest)%string) with (String c tok ++ rest)%string.
  rewrite accept_digits_app by (cbn; rewrite ?Hc, ?Hall; auto).
  rewrite Hval.
  destruct (Z.leb_spec (2 ^ 64) n); [lia|].
  destruct (Z.leb_spec (2 ^ bitSize) n); [lia|]. reflexivity.
Qed.

Lemma Sscanf_mtp_roundtrip m t p :
  0 <= m < 2 ^ 32 -> 0 <= t < 2 ^ 32 -> 0 <= p < 2 ^ 8 ->
  Sscanf_mtp ("m=" ++ FormatUint m ++ ",t=" ++ FormatUint t ++ ",p=" ++ FormatUint p)
  = inr (m, t, p).
Proof.
  intros Hm Ht Hp. unfold Sscanf_mtp. cbn [advance append Ascii.eqb Bool.eqb].
  rewrite scanUint_FormatUint by (try lia; reflexivity).
  cbn [advance append Ascii.eqb Bool.eqb].
  rewrite scanUint_FormatUint by (try lia; reflexivity).
  cbn [advance append Ascii.eqb Bool.eqb].
  rewrite <- (append_nil_r (FormatUint p)).
  rewrite scanUint_FormatUint by (try lia; reflexivity).
  reflexivity.
Qed.

End FmtFacts.

(** ** Constant-time comparison *)

Module SubtleFacts.
Import Subtle.

Lemma below_pow2 v n :
  0 <= n -> 0 <= v -> (forall i, n <= i -> Z.testbit v i = false) -> v < 2 ^ n.
Proof.
  intros Hn Hv Hbits.
  assert (E : v = v mod 2 ^ n).
  { eapply Z.bits_inj'. intros i Hi. rewrite Z.testbit_mod_pow2 by lia.
    destruct (Z.ltb_spec i n); [reflexivity|]. rewrite Hbits by lia. reflexivity. }
  rewrite E. apply Z.mod_pos_bound. apply Z.pow_pos_nonneg; lia.
Qed.

Lemma lor_lxor_byte v a b :
  0 <= v < 2 ^ 8 -> 0 <= a < 2 ^ 8 -> 0 <= b < 2 ^ 8 ->
  0 <= Z.lor v (Z.lxor a b) < 2 ^ 8.
Proof.
  intros Hv Ha Hb.
  assert (Hnn : 0 <= Z.lor v (Z.lxor a b)) by (rewrite Z.lor_nonneg, Z.lxor_nonneg; lia).
  split; [exact Hnn|]. apply below_pow2; [lia|exact Hnn|].
  intros i Hi. rewrite Z.lor_spec, Z.lxor_spec.
  rewrite (high_bits v 8 Hv), (high_bits a 8 Ha), (high_bits b 8 Hb) by lia.
  reflexivity.
Qed.

Lemma differences_range x : forall y v,
  0 <= v < 2 ^ 8 -> 0 <= differences x y v < 2 ^ 8.
Proof.
  induction x as [|a x IH]; intros [|b y] v Hv; try exact Hv.
  apply IH, lor_lxor_byte; [exact Hv|apply byte_to_Z_range..].
Qed.

Lemma byte_to_Z_inj a b : byte_to_Z a = byte_to_Z b -> a = b.
Proof. intros H. rewrite <- (byte_of_to_Z a), <- (byte_of_to_Z b), H. reflexivity. Qed.

Lemma differences_zero x : forall y v,
  List.length x = List.length y -> 0 <= v ->
  (differences x y v = 0 <-> v = 0 /\ x = y).
Proof.
  induction x as [|a x IH]; intros [|b y] v Hlen Hv; try discriminate.
  - cbn. intuition.
  - injection Hlen as Hlen. unfold differences. cbn [combine fold_left fst snd].
    fold (differences x y (Z.lor v (Z.lxor (byte_to_Z a) (byte_to_Z b)))).
    pose proof (byte_to_Z_range a). pose proof (byte_to_Z_range b).
    rewrite IH by (try assumption; rewrite Z.lor_nonneg, Z.lxor_nonneg; lia).
    rewrite Z.lor_eq_0_iff. split.
    + intros [[Hv0 Hx] ->]. apply Z.lxor_eq in Hx. apply byte_to_Z_inj in Hx.
      subst. auto.
    + intros [Hv0 E]. injection E as -> ->. rewrite Z.lxor_nilpotent. auto.
Qed.

Lemma ConstantTimeByteEq_zero v :
  0 <= v < 2 ^ 8 -> ConstantTimeByteEq v 0 = if v =? 0 then 1 else 0.
Proof.
  intros Hv. unfold ConstantTimeByteEq, uint32. rewrite Z.lxor_0_r.
  rewrite Z.shiftr_div_pow2 by lia.
  destruct (Z.eqb_spec v 0) as [->|Hne]; [reflexivity|].
  rewrite Z.mod_small by (change (2 ^ 8) with 256 in Hv; change (2 ^ 32) with 4294967296; lia).
  apply Z.div_small. change (2 ^ 8) with 256 in Hv. change (2 ^ 31) with 2147483648. lia.
Qed.

(** The comparison returns 1 on equal slices and 0 on all others. *)
Lemma ConstantTimeCompare_spec x y :
  ConstantTimeCompare x y = if list_eq_dec Byte.byte_eq_dec x y then 1 else 0.
Proof.
  unfold ConstantTimeCompare, len.
  destruct (Z.eqb_spec (Z.of_nat (List.length x)) (Z.of_nat (List.length y))) as [Hl|Hl];
    cbn [negb].
  - apply Nat2Z.inj in Hl. fold (differences x y 0).
    rewrite ConstantTimeByteEq_zero by (apply differences_range; lia).
    pose proof (differences_zero x y 0 Hl ltac:(lia)) as Z0.
    destruct (list_eq_dec Byte.byte_eq_dec x y) as [E|N];
      destruct (Z.eqb_spec (differences x y 0) 0) as [D|D]; intuition.
  - destruct (list_eq_dec Byte.byte_eq_dec x y) as [E|N]; [subst; congruence|reflexivity].
Qed.

Lemma ConstantTimeCompare_same x : ConstantTimeCompare x x = 1.
Proof.
  rewrite ConstantTimeCompare_spec.
  destruct (list_eq_dec Byte.byte_eq_dec x x); congruence.
Qed.

Lemma ConstantTimeCompare_other x y : x <> y -> ConstantTimeCompare x y = 0.
Proof.
  intros H. rewrite ConstantTimeCompare_spec.
  destruct (list_eq_dec Byte.byte_eq_dec x y); congruence.
Qed.

End SubtleFacts.

(** ** The encoded form *)

Lemma params_field_no_sep a : no_sep (params_field a) = true.
Proof.
  unfold params_field.
  rewrite !no_sep_app, !FmtFacts.FormatUint_no_sep. reflexivity.
Qed.

Lemma encodeHashComponents_joined salt hash a :
  encodeHashComponents salt hash a
  = ("" ++ String sep ("argon2id" ++ String sep ("v=19" ++ String sep
       (params_field a ++ String sep
          (Base64.EncodeToString salt ++ String sep (Base64.EncodeToString hash))))))%string.
Proof.
  unfold encodeHashComponents, params_field.
  change (Fmt.FormatUint Argon2Version) with "19".
  cbn [append]. rewrite !append_assoc. cbn [append]. rewrite !append_assoc.
  reflexivity.
Qed.

(** An encoded hash splits into its six fields. *)
Lemma encodeHashComponents_fields salt hash a :
  Split (encodeHashComponents salt hash a)
  = [""; "argon2id"; "v=19"; params_field a;
     Base64.EncodeToString salt; Base64.EncodeToString hash].
Proof.
  rewrite encodeHashComponents_joined.
  rewrite !Split_field, Split_no_sep;
    auto using params_field_no_sep, Base64Facts.EncodeToString_no_sep.
Qed.

(** Decoding undoes [encodeHashComponents]; the two lengths of the result
    are those of the salt and of the digest. *)
Lemma decodeHash_encodeHashComponents salt hash a :
  0 <= Memory a < 2 ^ 32 -> 0 <= Time a < 2 ^ 32 -> 0 <= Threads a < 2 ^ 8 ->
  decodeHash (encodeHashComponents salt hash a)
  = inr (decoded_params a salt hash, salt, hash).
Proof.
  intros Hm Ht Hp. unfold decodeHash.
  rewrite encodeHashComponents_fields. cbn [len List.length nth].
  change (negb (Z.of_nat 6 =? 6)) with false. cbv iota.
  change (Fmt.Sscanf_v "v=19") with (@inr scan_failure Z 19).
  unfold params_field. rewrite FmtFacts.Sscanf_mtp_roundtrip by assumption.
  rewrite !Base64Facts.DecodeString_EncodeToString. reflexivity.
Qed.

(** [decodeHash] in terms of the fields: the version is scanned and then
    dropped. *)
Lemma decodeHash_fields encodedHash :
  decodeHash encodedHash =
  if negb (len (Split encodedHash) =? 6) then inl ErrInvalidEncodedHash
  else
    match Fmt.Sscanf_v (nth 2 (Split encodedHash) "") with
    | inl _ => inl ErrIncompatibleArgon2Version
    | inr _ =>
        match Fmt.Sscanf_mtp (nth 3 (Split encodedHash) "") with
        | inl e => inl (ErrScan e)
        | inr (memory, time, threads) =>
            match Base64.DecodeString (nth 4 (Split encodedHash) "") with
            | inl e => inl e
            | inr salt =>
                match Base64.DecodeString (nth 5 (Split encodedHash) "") with
                | inl e => inl e
                | inr hash =>
                    inr (decoded_params (mkArgon2IdHash time memory threads 0 0) salt hash,
                         salt, hash)
                end
            end
        end
    end.
Proof. reflexivity. Qed.

Lemma decodeHash_version_error encodedHash :
  decodeHash encodedHash = inl ErrIncompatibleArgon2Version
  <-> len (Split encodedHash) = 6
      /\ exists why, Fmt.Sscanf_v (nth 2 (Split encodedHash) "") = inl why.
Proof.
  rewrite decodeHash_fields.
  destruct (Z.eqb_spec (len (Split encodedHash)) 6) as [E6|N6]; cbn [negb].
  - destruct (Fmt.Sscanf_v _) as [why|version].
    + split; eauto.
    + split; [|intros [_ [why ?]]; discriminate].
      destruct (Fmt.Sscanf_mtp _) as [|[[m t] p]]; [discriminate|].
      destruct (Base64.DecodeString (nth 4 _ _)) as [e|salt] eqn:D4.
      { apply Base64Facts.DecodeString_error in D4 as [off ->]. discriminate. }
      destruct (Base64.DecodeString (nth 5 _ _)) as [e|hash] eqn:D5; [|discriminate].
      apply Base64Facts.DecodeString_error in D5 as [off ->]. discriminate.
  - split; [discriminate|]. intros [? _]. contradiction.
Qed.

Lemma decodeHash_inr e a salt hash :
  decodeHash e = inr (a, salt, hash) ->
  len (Split e) = 6
  /\ (exists version, Fmt.Sscanf_v (nth 2 (Split e) "") = inr version)
  /\ Fmt.Sscanf_mtp (nth 3 (Split e) "") = inr (Memory a, Time a, Threads a)
  /\ Base64.DecodeString (nth 4 (Split e) "") = inr salt
  /\ Base64.DecodeString (nth 5 (Split e) "") = inr hash
  /\ SaltLen a = uint32 (len salt) /\ KeyLen a = uint32 (len hash).
Proof.
  rewrite decodeHash_fields.
  destruct (Z.eqb_spec (len (Split e)) 6) as [E6|]; [|discriminate]. cbn [negb].
  destruct (Fmt.Sscanf_v _) as [|version]; [discriminate|].
  destruct (Fmt.Sscanf_mtp _) as [|[[m t] p]]; [discriminate|].
  destruct (Base64.DecodeString (nth 4 _ _)) as [|salt0]; [discriminate|].
  destruct (Base64.DecodeString (nth 5 _ _)) as [|hash0]; [discriminate|].
  intros E. injection E as <- <- <-. cbn. eauto 10.
Qed.

(** [decodeHash] fails exactly on a wrong number of fields, a version or
    cost field that does not scan, or a salt or digest field that is not
    base64. *)
Lemma decodeHash_fails_iff encodedHash :
  (exists err, decodeHash encodedHash = inl err)
  <-> len (Split encodedHash) <> 6
      \/ (exists why, Fmt.Sscanf_v (nth 2 (Split encodedHash) "") = inl why)
      \/ (exists why, Fmt.Sscanf_mtp (nth 3 (Split encodedHash) "") = inl why)
      \/ (exists err, Base64.DecodeString (nth 4 (Split encodedHash) "") = inl err)
      \/ (exists err, Base64.DecodeString (nth 5 (Split encodedHash) "") = inl err).
Proof.
  rewrite decodeHash_fields.
  destruct (Z.eqb_spec (len (Split encodedHash)) 6) as [E6|N6]; cbn [negb];
    [|split; eauto].
  destruct (Fmt.Sscanf_v _) as [why|version]; [split; eauto|].
  destruct (Fmt.Sscanf_mtp _) as [why|[[m t] p]]; [split; eauto|].
  destruct (Base64.DecodeString (nth 4 _ _)) as [e4|salt]; [split; eauto 6|].
  destruct (Base64.DecodeString (nth 5 _ _)) as [e5|hash]; [split; eauto 6|].
  split.
  - intros [err E]. discriminate E.
  - intros [N|[[? E]|[[? E]|[[? E]|[? E]]]]]; try discriminate E. contradiction.
Qed.

(** [decodeHash] succeeds exactly on six fields of which the third and the
    fourth scan and the last two are base64; the salt and the digest are
    what the last two fields decode to, the costs what the fourth scans
    to, and the two lengths the lengths of salt and digest. *)
Lemma decodeHash_succeeds_iff e a salt hash :
  decodeHash e = inr (a, salt, hash)
  <-> len (Split e) = 6
      /\ (exists version, Fmt.Sscanf_v (nth 2 (Split e) "") = inr version)
      /\ Fmt.Sscanf_mtp (nth 3 (Split e) "") = inr (Memory a, Time a, Threads a)
      /\ Base64.DecodeString (nth 4 (Split e) "") = inr salt
      /\ Base64.DecodeString (nth 5 (Split e) "") = inr hash
      /\ SaltLen a = uint32 (len salt) /\ KeyLen a = uint32 (len hash).
Proof.
  split; [apply decodeHash_inr|].
  intros (L & [version V] & P & S & H & SL & KL).
  rewrite decodeHash_fields, L, V, P, S, H.
  change (negb (6 =? 6)) with false. cbv iota.
  unfold decoded_params. cbn [Time Memory Threads].
  rewrite <- SL, <- KL. destruct a; reflexivity.
Qed.

Lemma hash_with_costs_encoded m t p salt hash :
  hash_with_costs m t p salt hash
  = encodeHashComponents salt hash (mkArgon2IdHash t m p 0 0).
Proof. reflexivity. Qed.

(** A string in the encoded form decodes to the numbers, the salt and the
    digest written in it, whatever they are, as long as the numbers fit
    their variables. *)
Lemma decodeHash_hash_with_costs m t p salt hash :
  0 <= m < 2 ^ 32 -> 0 <= t < 2 ^ 32 -> 0 <= p < 2 ^ 8 ->
  decodeHash (hash_with_costs m t p salt hash)
  = inr ({| Time := t; Memory := m; Threads := p;
            KeyLen := uint32 (len hash); SaltLen := uint32 (len salt) |},
         salt, hash).
Proof.
  intros Hm Ht Hp. rewrite hash_with_costs_encoded.
  apply (decodeHash_encodeHashComponents salt hash (mkArgon2IdHash t m p 0 0));
    assumption.
Qed.

(** ** The two operations, unfolded *)

Section Unfolded.

Variable IDKey : list byte -> list byte -> Z -> Z -> Z -> Z -> option (list byte).

Lemma VerifyHash_unfold password encodedHash w :
  VerifyHash IDKey password encodedHash w =
  match decodeHash encodedHash with
  | inl err => (Returned (false, Some err), w)
  | inr (a, salt, hash) =>
      match IDKey (list_byte_of_string password) salt
                  (Time a) (Memory a) (Threads a) (KeyLen a) with
      | Some otherHash =>
          (Returned (Subtle.ConstantTimeCompare hash otherHash =? 1, None),
           note_derivation (verify_call password a salt) w)
      | None => (Panicked, note_derivation (verify_call password a salt) w)
      end
  end.
Proof.
  unfold VerifyHash. destruct (decodeHash encodedHash) as [err|[[a salt] hash]];
    [reflexivity|].
  unfold bind, argon2_IDKey, verify_call.
  destruct (IDKey _ _ _ _ _ _) as [otherHash|]; [|reflexivity].
  destruct (Subtle.ConstantTimeCompare hash otherHash =? 1); reflexivity.
Qed.

(** [GenerateHash] without a salt: the salt is read from the entropy, the
    digest derived from it and both encoded. *)
Lemma GenerateHash_fresh_salt a password w :
  GenerateHash IDKey a password [] w =
  let n := Z.to_nat (SaltLen a) in
  if (n <=? List.length (entropy w))%nat then
    let salt := firstn n (entropy w) in
    let w' := note_derivation
                (mkDerivation password salt (Time a) (Memory a) (Threads a) (KeyLen a))
                (after_read n w) in
    match IDKey password salt (Time a) (Memory a) (Threads a) (KeyLen a) with
    | Some hash => (Returned (encodeHashComponents salt hash a, None), w')
    | None => (Panicked, w')
    end
  else
    (if rand_fatal w then Aborted else Returned ("", Some ErrRandRead),
     {| entropy := []; derivations := derivations w; logged := logged w;
        rand_fatal := rand_fatal w |}).
Proof.
  unfold GenerateHash, validateSaltLength, generateBytes, rand_Read, bind, ret,
    argon2_IDKey, after_read.
  cbn [len List.length Z.of_nat Z.ltb Z.compare andb Z.eqb].
  destruct (Z.to_nat (SaltLen a) <=? List.length (entropy w))%nat;
    [|destruct (rand_fatal w); reflexivity].
  cbv zeta. destruct (IDKey _ _ _ _ _ _); reflexivity.
Qed.

(** [GenerateHash] with a salt that passes the length check. *)
Lemma GenerateHash_given_salt a password salt w :
  0 < len salt -> uint32 (len salt) = SaltLen a ->
  GenerateHash IDKey a password salt w =
  let w' := note_derivation
              (mkDerivation password salt (Time a) (Memory a) (Threads a) (KeyLen a))
              w in
  match IDKey password salt (Time a) (Memory a) (Threads a) (KeyLen a) with
  | Some hash => (Returned (encodeHashComponents salt hash a, None), w')
  | None => (Panicked, w')
  end.
Proof.
  intros Hpos Hlen.
  unfold GenerateHash, validateSaltLength, bind, ret, argon2_IDKey.
  rewrite Hlen, Z.eqb_refl, andb_false_r.
  destruct (Z.eqb_spec (len salt) 0); [lia|].
  cbv zeta. destruct (IDKey _ _ _ _ _ _); reflexivity.
Qed.

(** [GenerateHash] with a salt that fails the length check: the error, a
    line in the log, and nothing else. *)
Lemma GenerateHash_rejected_salt a password salt w :
  0 < len salt -> uint32 (len salt) <> SaltLen a ->
  exists line,
    GenerateHash IDKey a password salt w =
    (Returned ("", Some ErrInvalidSaltLength),
     {| entropy := entropy w; derivations := derivations w;
        logged := line :: logged w; rand_fatal := rand_fatal w |}).
Proof.
  intros Hpos Hlen.
  unfold GenerateHash, validateSaltLength, bind, ret, log_Printf.
  apply Z.ltb_lt in Hpos. apply Z.eqb_neq in Hlen. rewrite Hpos, Hlen.
  cbn [andb negb]. eexists. reflexivity.
Qed.

(** Every string [GenerateHash] returns is [encodeHashComponents] of the
    salt used and of the digest derived from it. *)
Lemma GenerateHash_returned a password salt w e w' :
  GenerateHash IDKey a password salt w = (Returned (e, None), w') ->
  exists salt' hash,
    IDKey password salt' (Time a) (Memory a) (Threads a) (KeyLen a) = Some hash
    /\ e = encodeHashComponents salt' hash a
    /\ (salt = [] -> salt' = firstn (Z.to_nat (SaltLen a)) (entropy w))
    /\ (salt <> [] -> salt' = salt).
Proof.
  intros H. destruct salt as [|b salt].
  - rewrite GenerateHash_fresh_salt in H. cbv zeta in H.
    destruct (_ <=? _)%nat; [|destruct (rand_fatal w); discriminate].
    destruct (IDKey _ _ _ _ _ _) as [hash|] eqn:E; [|discriminate].
    injection H as <- _. exists (firstn (Z.to_nat (SaltLen a)) (entropy w)), hash.
    repeat split; auto. congruence.
  - assert (Hpos : 0 < len (b :: salt)) by (unfold len; cbn [List.length]; lia).
    destruct (Z.eq_dec (uint32 (len (b :: salt))) (SaltLen a)) as [Hlen|Hlen].
    + rewrite (GenerateHash_given_salt _ _ _ _ Hpos Hlen) in H. cbv zeta in H.
      destruct (IDKey _ _ _ _ _ _) as [hash|] eqn:E; [|discriminate].
      injection H as <- _. exists (b :: salt), hash. repeat split; auto. congruence.
    + destruct (GenerateHash_rejected_salt a password _ w Hpos Hlen) as [line E].
      rewrite E in H. discriminate.
Qed.

(** With enough entropy and parameters at which the derivation returns,
    [GenerateHash] without a salt returns an encoded hash. *)
Lemma GenerateHash_returns a password w :
  argon2_returns IDKey ->
  1 <= Time a -> 1 <= Threads a -> 1 <= KeyLen a < 2 ^ 32 ->
  (Z.to_nat (SaltLen a) <= List.length (entropy w))%nat ->
  exists e w', GenerateHash IDKey a password [] w = (Returned (e, None), w').
Proof.
  intros Hret Ht Hp Hk He. rewrite GenerateHash_fresh_salt. cbv zeta.
  apply Nat.leb_le in He. rewrite He.
  destruct (IDKey _ _ _ _ _ _) eqn:K; [eauto|].
  exfalso. revert K. apply Hret; assumption.
Qed.

End Unfolded.

(** ** The sample derivation meets what is assumed *)

Lemma sample_stream_length n seed : List.length (sample_stream n seed) = n.
Proof.
  revert seed. induction n as [|n IH]; intros seed; [reflexivity|].
  cbn [sample_stream List.length]. rewrite IH. reflexivity.
Qed.

Lemma sample_key_length : argon2_key_length sample_IDKey.
Proof.
  intros password salt time memory threads keyLen key. unfold sample_IDKey.
  destruct (Z.ltb_spec time 1); [discriminate|].
  destruct (Z.ltb_spec threads 1); [discriminate|].
  destruct (Z.ltb_spec keyLen 1); [discriminate|].
  destruct (Z.leb_spec (2 ^ 32) keyLen); [discriminate|].
  cbn [orb]. intros E. injection E as <-. unfold len.
  rewrite sample_stream_length. lia.
Qed.

Lemma sample_panics : argon2_panics sample_IDKey.
Proof.
  intros password salt time memory threads keyLen H. unfold sample_IDKey.
  destruct (Z.ltb_spec time 1); [reflexivity|].
  destruct (Z.ltb_spec threads 1); [reflexivity|]. lia.
Qed.

Lemma sample_returns : argon2_returns sample_IDKey.
Proof.
  intros password salt time memory threads keyLen Ht Hth Hk. unfold sample_IDKey.
  destruct (Z.ltb_spec time 1); [lia|].
  destruct (Z.ltb_spec threads 1); [lia|].
  destruct (Z.ltb_spec keyLen 1); [lia|].
  destruct (Z.leb_spec (2 ^ 32) keyLen); [lia|]. discriminate.
Qed.

Lemma default_well_typed : well_typed DefaultArgon2IDHash.
Proof. unfold well_typed. cbn. lia. Qed.

(** * The properties of the hasher *)

Section RoundTrip.

Variable IDKey : list byte -> list byte -> Z -> Z -> Z -> Z -> option (list byte).
Hypothesis IDKey_length : argon2_key_length IDKey.

(** C1. Round trip: whenever [GenerateHash], called with a password and no
    salt, returns an encoded hash, [VerifyHash] with the same password and
    that hash returns [(true, nil)]; and [GenerateHash] does return one when
    the entropy suffices for the salt and the derivation returns (at least
    one round, one lane and one byte of key). *)
Theorem VerifyHash_accepts_generated a password w :
  well_typed a ->
  (forall e w',
      GenerateHash IDKey a (list_byte_of_string password) [] w = (Returned (e, None), w') ->
      fst (VerifyHash IDKey password e w') = Returned (true, None))
  /\ (argon2_returns IDKey ->
      1 <= Time a -> 1 <= Threads a -> 1 <= KeyLen a ->
      (Z.to_nat (SaltLen a) <= List.length (entropy w))%nat ->
      exists e w',
        GenerateHash IDKey a (list_byte_of_string password) [] w = (Returned (e, None), w')
        /\ fst (VerifyHash IDKey password e w') = Returned (true, None)).
Proof.
  intros (Ht & Hm & Hp & Hk & _).
  assert (A : forall e w',
             GenerateHash IDKey a (list_byte_of_string password) [] w
             = (Returned (e, None), w') ->
             fst (VerifyHash IDKey password e w') = Returned (true, None)).
  { intros e w' Hgen.
    destruct (GenerateHash_returned _ _ _ _ _ _ _ Hgen) as (salt & hash & Hkey & -> & _).
    rewrite VerifyHash_unfold, decodeHash_encodeHashComponents by assumption.
    cbn [decoded_params Time Memory Threads KeyLen].
    rewrite (IDKey_length _ _ _ _ _ _ _ Hkey).
    unfold uint32. rewrite Z.mod_small by exact Hk. rewrite Hkey.
    rewrite SubtleFacts.ConstantTimeCompare_same. reflexivity. }
  split; [exact A|].
  intros Hret Ht1 Hp1 Hk1 He.
  destruct (GenerateHash_returns IDKey a (list_byte_of_string password) w Hret)
    as (e & w' & Hgen); try lia.
  exists e, w'. split; [exact Hgen|exact (A e w' Hgen)].
Qed.

End RoundTrip.

Section Format.

Variable IDKey : list byte -> list byte -> Z -> Z -> Z -> Z -> option (list byte).

(** C4. The encoded form round-trips: a string returned by [GenerateHash]
    decodes, and [encodeHashComponents] of the decoded salt, digest and
    parameters is that string again. *)
Theorem decode_then_encode_is_identity a password salt w e w' :
  well_typed a ->
  GenerateHash IDKey a password salt w = (Returned (e, None), w') ->
  exists a' salt' hash,
    decodeHash e = inr (a', salt', hash)
    /\ encodeHashComponents salt' hash a' = e.
Proof.
  intros (Ht & Hm & Hp & _) Hgen.
  destruct (GenerateHash_returned _ _ _ _ _ _ _ Hgen) as (salt' & hash & _ & -> & _).
  exists (decoded_params a salt' hash), salt', hash.
  split; [apply decodeHash_encodeHashComponents; assumption|reflexivity].
Qed.

(** C7. A string returned by [GenerateHash] reads
    [$argon2id$v=19$m=M,t=T,p=P$SALT$DIGEST]: split at the separator it has
    exactly six fields, the first empty, the second the literal
    [argon2id], the third and fourth the version and the cost parameters
    in decimal, the last two the salt and the digest in the standard
    base64 alphabet with padding. *)
Theorem generated_hash_format a password salt w e w' :
  well_typed a ->
  GenerateHash IDKey a password salt w = (Returned (e, None), w') ->
  exists salt' hash,
    e = ("$argon2id$v=" ++ Fmt.FormatUint Argon2Version
           ++ "$m=" ++ Fmt.FormatUint (Memory a)
           ++ ",t=" ++ Fmt.FormatUint (Time a)
           ++ ",p=" ++ Fmt.FormatUint (Threads a)
           ++ "$" ++ Base64.EncodeToString salt'
           ++ "$" ++ Base64.EncodeToString hash)%string
    /\ len (Split e) = 6
    /\ Split e = [""; "argon2id"; "v=19"; params_field a;
                  Base64.EncodeToString salt'; Base64.EncodeToString hash]
    /\ Fmt.Sscanf_v (nth 2 (Split e) "") = inr Argon2Version
    /\ Fmt.Sscanf_mtp (nth 3 (Split e) "") = inr (Memory a, Time a, Threads a)
    /\ Base64.std_padded (nth 4 (Split e) "") = true
    /\ Base64.std_padded (nth 5 (Split e) "") = true
    /\ Base64.DecodeString (nth 4 (Split e) "") = inr salt'
    /\ Base64.DecodeString (nth 5 (Split e) "") = inr hash.
Proof.
  intros (Ht & Hm & Hp & _) Hgen.
  destruct (GenerateHash_returned _ _ _ _ _ _ _ Hgen) as (salt' & hash & _ & -> & _).
  exists salt', hash. rewrite encodeHashComponents_fields. cbn [nth].
  repeat split.
  - apply FmtFacts.Sscanf_mtp_roundtrip; assumption.
  - apply Base64Facts.EncodeToString_std_padded.
  - apply Base64Facts.EncodeToString_std_padded.
  - apply Base64Facts.DecodeString_EncodeToString.
  - apply Base64Facts.DecodeString_EncodeToString.
Qed.

End Format.

(** C2 does not hold as it stands: a record that decodes need not make
    [VerifyHash] return. [zero_rounds_hash] decodes, with zero rounds, and
    with any derivation that panics on zero rounds, as [argon2.IDKey]
    does, [VerifyHash] panics on it and returns neither [(true, nil)] nor
    [(false, nil)]. *)
Lemma parsed_record_can_panic :
  decodeHash zero_rounds_hash
  = inr (mkArgon2IdHash 0 8 1 3 8, list_byte_of_string "saltsalt", [x00; x00; x00])
  /\ ~ exists IDKey, argon2_panics IDKey /\ verdict_whenever_parsed IDKey.
Proof.
  assert (D : decodeHash zero_rounds_hash
              = inr (mkArgon2IdHash 0 8 1 3 8, list_byte_of_string "saltsalt",
                     [x00; x00; x00])) by (vm_compute; reflexivity).
  split; [exact D|]. intros (IDKey & P & V).
  destruct (V "" zero_rounds_hash
              {| entropy := []; derivations := []; logged := []; rand_fatal := true |}
              _ _ _ D) as [_ F].
  rewrite VerifyHash_unfold, D in F.
  rewrite P in F by (cbn; lia). cbn [fst] in F.
  assert (N : @None (list byte) <> Some [x00; x00; x00]) by discriminate.
  specialize (F N). discriminate F.
Qed.

Section Verification.

Variable IDKey : list byte -> list byte -> Z -> Z -> Z -> Z -> option (list byte).

(** C2, amended. [VerifyHash] returns an error exactly when [decodeHash]
    fails, and then the error of [decodeHash] with [false]. When the string
    decodes, [VerifyHash] calls the derivation with the password and the
    decoded salt, costs and digest length: it returns [(true, nil)] exactly
    when the derived digest is the stored digest, [(false, nil)] exactly
    when the derived digest is another one, and it panics exactly when the
    derivation panics. [decodeHash] fails exactly on a wrong number of
    fields, a version or cost field that does not scan, or a salt or digest
    field that is not base64; otherwise it returns what the fields hold:
    the costs the fourth field scans to, the salt and the digest the last
    two fields decode to, and their lengths. *)
Theorem VerifyHash_results password encodedHash w :
  (forall b err,
      fst (VerifyHash IDKey password encodedHash w) = Returned (b, Some err)
      <-> b = false /\ decodeHash encodedHash = inl err)
  /\ (fst (VerifyHash IDKey password encodedHash w) = Returned (true, None)
      <-> exists a salt hash,
            decodeHash encodedHash = inr (a, salt, hash)
            /\ IDKey (list_byte_of_string password) salt
                     (Time a) (Memory a) (Threads a) (KeyLen a) = Some hash)
  /\ (fst (VerifyHash IDKey password encodedHash w) = Returned (false, None)
      <-> exists a salt hash otherHash,
            decodeHash encodedHash = inr (a, salt, hash)
            /\ IDKey (list_byte_of_string password) salt
                     (Time a) (Memory a) (Threads a) (KeyLen a) = Some otherHash
            /\ otherHash <> hash)
  /\ (fst (VerifyHash IDKey password encodedHash w) = Panicked
      <-> exists a salt hash,
            decodeHash encodedHash = inr (a, salt, hash)
            /\ IDKey (list_byte_of_string password) salt
                     (Time a) (Memory a) (Threads a) (KeyLen a) = None)
  /\ ((exists err, decodeHash encodedHash = inl err)
      <-> len (Split encodedHash) <> 6
          \/ (exists why, Fmt.Sscanf_v (nth 2 (Split encodedHash) "") = inl why)
          \/ (exists why, Fmt.Sscanf_mtp (nth 3 (Split encodedHash) "") = inl why)
          \/ (exists err, Base64.DecodeString (nth 4 (Split encodedHash) "") = inl err)
          \/ (exists err, Base64.DecodeString (nth 5 (Split encodedHash) "") = inl err))
  /\ (forall a salt hash,
         decodeHash encodedHash = inr (a, salt, hash)
         <-> len (Split encodedHash) = 6
             /\ (exists version,
                    Fmt.Sscanf_v (nth 2 (Split encodedHash) "") = inr version)
             /\ Fmt.Sscanf_mtp (nth 3 (Split encodedHash) "")
                = inr (Memory a, Time a, Threads a)
             /\ Base64.DecodeString (nth 4 (Split encodedHash) "") = inr salt
             /\ Base64.DecodeString (nth 5 (Split encodedHash) "") = inr hash
             /\ SaltLen a = uint32 (len salt) /\ KeyLen a = uint32 (len hash)).
Proof.
  assert (R : forall P1 P2 P3 P4 P5 P6 : Prop,
             P1 /\ P2 /\ P3 /\ P4 -> P5 -> P6 -> P1 /\ P2 /\ P3 /\ P4 /\ P5 /\ P6)
    by tauto.
  apply R; [|apply decodeHash_fails_iff|intros a salt hash; apply decodeHash_succeeds_iff].
  clear R. rewrite VerifyHash_unfold.
  destruct (decodeHash encodedHash) as [err0|[[a salt] hash]] eqn:D.
  - cbn [fst]. split; [|split; [|split]].
    + intros b err. split.
      * intros E. injection E as <- <-. auto.
      * intros [-> E]. injection E as <-. reflexivity.
    + split; [discriminate|]. intros (? & ? & ? & ? & _). discriminate.
    + split; [discriminate|]. intros (? & ? & ? & ? & ? & _). discriminate.
    + split; [discriminate|]. intros (? & ? & ? & ? & _). discriminate.
  - destruct (IDKey _ _ _ _ _ _) as [otherHash|] eqn:K; cbn [fst].
    + rewrite SubtleFacts.ConstantTimeCompare_spec.
      destruct (list_eq_dec byte_eq_dec hash otherHash) as [E|N];
        [subst otherHash; change (1 =? 1) with true|change (0 =? 1) with false];
        (split; [|split; [|split]]).
      * intros b err. split; [discriminate|]. intros [_ ?]. discriminate.
      * split; [|reflexivity]. intros _. exists a, salt, hash. auto.
      * split; [discriminate|].
        intros (a' & salt' & hash' & other' & E' & K' & N').
        injection E' as <- <- <-. congruence.
      * split; [discriminate|].
        intros (a' & salt' & hash' & E' & K').
        injection E' as <- <- <-. congruence.
      * intros b err. split; [discriminate|]. intros [_ ?]. discriminate.
      * split; [discriminate|].
        intros (a' & salt' & hash' & E' & K').
        injection E' as <- <- <-. congruence.
      * split; [|reflexivity]. intros _. exists a, salt, hash, otherHash.
        repeat split; congruence.
      * split; [discriminate|].
        intros (a' & salt' & hash' & E' & K').
        injection E' as <- <- <-. congruence.
    + split; [|split; [|split]].
      * intros b err. split; [discriminate|]. intros [_ ?]. discriminate.
      * split; [discriminate|].
        intros (a' & salt' & hash' & E' & K').
        injection E' as <- <- <-. congruence.
      * split; [discriminate|].
        intros (a' & salt' & hash' & other' & E' & K' & _).
        injection E' as <- <- <-. congruence.
      * split; [|reflexivity]. intros _. exists a, salt, hash. auto.
Qed.

End Verification.

Section Version.

Variable IDKey : list byte -> list byte -> Z -> Z -> Z -> Z -> option (list byte).

(** C9. The version is scanned and dropped: two encoded strings that
    differ only in a version field that scans in both decode to the same
    result and verify alike, and [VerifyHash] returns the version error
    exactly when the string has six fields and its version field does not
    scan (so never for a version that scans, whatever its value). *)
Theorem version_value_is_ignored password e1 e2 v1 v2 w :
  differ_only_in_version e1 e2 ->
  Fmt.Sscanf_v (nth 2 (Split e1) "") = inr v1 ->
  Fmt.Sscanf_v (nth 2 (Split e2) "") = inr v2 ->
  decodeHash e1 = decodeHash e2
  /\ VerifyHash IDKey password e1 w = VerifyHash IDKey password e2 w
  /\ fst (VerifyHash IDKey password e1 w)
     <> Returned (false, Some ErrIncompatibleArgon2Version)
  /\ forall e,
      fst (VerifyHash IDKey password e w)
      = Returned (false, Some ErrIncompatibleArgon2Version)
      <-> len (Split e) = 6
          /\ exists why, Fmt.Sscanf_v (nth 2 (Split e) "") = inl why.
Proof.
  intros [Hlen Hnth] S1 S2.
  assert (D : decodeHash e1 = decodeHash e2).
  { rewrite !decodeHash_fields. unfold len. rewrite S1, S2, Hlen.
    rewrite (Hnth 3%nat), (Hnth 4%nat), (Hnth 5%nat) by discriminate. reflexivity. }
  assert (V : forall e,
             fst (VerifyHash IDKey password e w)
             = Returned (false, Some ErrIncompatibleArgon2Version)
             <-> decodeHash e = inl ErrIncompatibleArgon2Version).
  { intros e. rewrite VerifyHash_unfold.
    destruct (decodeHash e) as [err|[[a salt] hash]]; cbn [fst].
    - split; intros E; injection E as ->; reflexivity.
    - destruct (IDKey _ _ _ _ _ _); cbn [fst]; split; discriminate. }
  split; [exact D|]. split; [rewrite !VerifyHash_unfold, D; reflexivity|].
  split.
  - rewrite V, decodeHash_version_error. intros [_ [why E]]. congruence.
  - intros e. rewrite V. apply decodeHash_version_error.
Qed.

End Version.

Section Unvalidated.

Variable IDKey : list byte -> list byte -> Z -> Z -> Z -> Z -> option (list byte).
Hypothesis IDKey_panics : argon2_panics IDKey.

(** C10. [decodeHash] checks no range. It succeeds exactly when the six
    fields scan and decode, and what it returns is what they hold: the two
    lengths of its result are the (truncated) lengths of the salt and the
    digest the last two fields decode to, whatever they are. A string in
    the encoded form with any costs that fit their variables, zero memory,
    zero rounds or zero lanes among them, and any salt and digest, the
    empty ones among them, decodes to these values. On every string that
    decodes to zero rounds or zero lanes [VerifyHash] calls the derivation
    with these values and panics with it instead of returning an error. *)
Theorem decodeHash_validates_nothing :
  (forall e a salt hash,
      decodeHash e = inr (a, salt, hash)
      <-> len (Split e) = 6
          /\ (exists version, Fmt.Sscanf_v (nth 2 (Split e) "") = inr version)
          /\ Fmt.Sscanf_mtp (nth 3 (Split e) "") = inr (Memory a, Time a, Threads a)
          /\ Base64.DecodeString (nth 4 (Split e) "") = inr salt
          /\ Base64.DecodeString (nth 5 (Split e) "") = inr hash
          /\ SaltLen a = uint32 (len salt) /\ KeyLen a = uint32 (len hash))
  /\ (forall m t p salt hash,
         0 <= m < 2 ^ 32 -> 0 <= t < 2 ^ 32 -> 0 <= p < 2 ^ 8 ->
         decodeHash (hash_with_costs m t p salt hash)
         = inr ({| Time := t; Memory := m; Threads := p;
                   KeyLen := uint32 (len hash); SaltLen := uint32 (len salt) |},
                salt, hash))
  /\ decodeHash zero_cost_hash = inr (mkArgon2IdHash 0 0 0 0 0, [], [])
  /\ (forall password e a salt hash w,
         decodeHash e = inr (a, salt, hash) ->
         Time a < 1 \/ Threads a < 1 ->
         VerifyHash IDKey password e w
         = (Panicked, note_derivation (verify_call password a salt) w))
  /\ (forall password m t p salt hash w,
         0 <= m < 2 ^ 32 -> 0 <= t < 2 ^ 32 -> 0 <= p < 2 ^ 8 ->
         t = 0 \/ p = 0 ->
         VerifyHash IDKey password (hash_with_costs m t p salt hash) w
         = (Panicked,
            note_derivation
              (mkDerivation (list_byte_of_string password) salt t m p
                 (uint32 (len hash))) w))
  /\ (forall password w,
         VerifyHash IDKey password zero_cost_hash w
         = (Panicked,
            note_derivation
              (mkDerivation (list_byte_of_string password) [] 0 0 0 0) w)).
Proof.
  assert (P : forall password e a salt hash w,
             decodeHash e = inr (a, salt, hash) ->
             Time a < 1 \/ Threads a < 1 ->
             VerifyHash IDKey password e w
             = (Panicked, note_derivation (verify_call password a salt) w)).
  { intros password e a salt hash w D H.
    rewrite VerifyHash_unfold, D, IDKey_panics by exact H. reflexivity. }
  split; [exact decodeHash_succeeds_iff|].
  split; [exact decodeHash_hash_with_costs|].
  split; [reflexivity|]. split; [exact P|]. split.
  - intros password m t p salt hash w Hm Ht Hp Hz.
    apply (P password _ _ salt hash w (decodeHash_hash_with_costs m t p salt hash Hm Ht Hp)).
    cbn [Time Threads]. lia.
  - intros password w.
    apply (P password zero_cost_hash (mkArgon2IdHash 0 0 0 0 0) [] [] w);
      [reflexivity|cbn; lia].
Qed.

End Unvalidated.

Lemma len_oversized_salt : len oversized_salt = 4294967328.
Proof.
  unfold len, oversized_salt. rewrite repeat_length. apply Z2Nat.id. lia.
Qed.

Section SaltLength.

Variable IDKey : list byte -> list byte -> Z -> Z -> Z -> Z -> option (list byte).

(** A salt of a wrong length below [2^32] bytes is refused before any
    derivation or read of entropy. *)
Lemma GenerateHash_refuses_wrong_length a password salt w :
  0 < len salt < 2 ^ 32 -> len salt <> SaltLen a ->
  fst (GenerateHash IDKey a password salt w) = Returned ("", Some ErrInvalidSaltLength)
  /\ derivations (snd (GenerateHash IDKey a password salt w)) = derivations w
  /\ entropy (snd (GenerateHash IDKey a password salt w)) = entropy w.
Proof.
  intros Hlen Hne.
  destruct (GenerateHash_rejected_salt IDKey a password salt w) as [line E].
  - lia.
  - unfold uint32. rewrite Z.mod_small by lia. exact Hne.
  - rewrite E. auto.
Qed.

(** C3, where the code departs from it. The length check compares the
    length truncated to 32 bits: the salt of [2^32 + 32] bytes, whose
    length is not the configured 32, passes it, and [GenerateHash] goes on
    to the derivation with that salt instead of returning
    [ErrInvalidSaltLength]. *)
Theorem oversized_salt_reaches_derivation password w :
  len oversized_salt <> SaltLen DefaultArgon2IDHash
  /\ fst (validateSaltLength oversized_salt (SaltLen DefaultArgon2IDHash) w)
     = Returned None
  /\ fst (GenerateHash IDKey DefaultArgon2IDHash password oversized_salt w)
     <> Returned ("", Some ErrInvalidSaltLength)
  /\ derivations (snd (GenerateHash IDKey DefaultArgon2IDHash password oversized_salt w))
     = mkDerivation password oversized_salt 2 (19 * 1024) 1 32 :: derivations w.
Proof.
  assert (Hpos : 0 < len oversized_salt) by (rewrite len_oversized_salt; lia).
  assert (Hlen : uint32 (len oversized_salt) = SaltLen DefaultArgon2IDHash)
    by (rewrite len_oversized_salt; reflexivity).
  split; [rewrite len_oversized_salt; discriminate|]. split.
  - unfold validateSaltLength. rewrite Hlen, Z.eqb_refl, andb_false_r. reflexivity.
  - rewrite (GenerateHash_given_salt IDKey _ password _ w Hpos Hlen). cbv zeta.
    destruct (IDKey _ _ _ _ _ _) as [hash|]; cbn [fst snd]; (split; [|reflexivity]).
    + intros E.
      apply (f_equal (fun r : outcome (string * option error) =>
                        match r with
                        | Returned (_, None) => true
                        | _ => false
                        end)) in E.
      discriminate E.
    + intros E. discriminate E.
Qed.

End SaltLength.

(** ** Colliding passwords

    A derivation with keys of a fixed length maps infinitely many passwords
    to finitely many keys, so two passwords share one. *)

Lemma in_all_bytes b : In b all_bytes.
Proof.
  unfold all_bytes. apply in_map_iff. exists (byte_to_Z b).
  split; [apply byte_of_to_Z|].
  apply in_map_iff. exists (Z.to_nat (byte_to_Z b)).
  pose proof (byte_to_Z_range b). split; [lia|]. apply in_seq. lia.
Qed.

Lemma in_all_keys k : forall key, List.length key = k -> In key (all_keys k).
Proof.
  induction k as [|k IH]; intros [|b key] H; try discriminate.
  - left. reflexivity.
  - cbn [all_keys]. apply in_flat_map. exists b. split; [apply in_all_bytes|].
    apply in_map, IH. injection H as H. exact H.
Qed.

Lemma zero_passwords_NoDup n : NoDup (zero_passwords n).
Proof.
  unfold zero_passwords. generalize 0%nat as start.
  induction n as [|n IH]; intros start; cbn [seq map]; constructor; [|apply IH].
  intros H. apply in_map_iff in H as (m & E & Hm). apply in_seq in Hm.
  apply (f_equal (@List.length byte)) in E. rewrite !repeat_length in E. lia.
Qed.

Lemma collision_in_images {A B : Type} (eq_dec : forall x y : B, {x = y} + {x <> y})
      (f : A -> B) (l : list A) :
  NoDup l -> ~ NoDup (map f l) -> exists x y, x <> y /\ f x = f y.
Proof.
  induction l as [|a l IH]; intros Hl Hf.
  - exfalso. apply Hf. constructor.
  - inversion Hl as [|? ? Ha Hl']; subst.
    destruct (in_dec eq_dec (f a) (map f l)) as [Hin|Hout].
    + apply in_map_iff in Hin as (y & E & Hy). exists a, y. split; [|auto].
      intros ->. contradiction.
    + apply IH; [exact Hl'|]. intros N. apply Hf. cbn [map]. constructor; assumption.
Qed.

(** Pigeonhole: a function whose values all have [k] bytes takes one value
    at two different arguments. *)
Lemma key_collision (f : list byte -> list byte) (k : nat) :
  (forall p, List.length (f p) = k) -> exists p1 p2, p1 <> p2 /\ f p1 = f p2.
Proof.
  intros Hk.
  apply (collision_in_images (list_eq_dec byte_eq_dec) f
           (zero_passwords (S (List.length (all_keys k))))).
  - apply zero_passwords_NoDup.
  - intros N.
    apply NoDup_incl_length with (l' := all_keys k) in N.
    + unfold zero_passwords in N. rewrite !length_map, length_seq in N. lia.
    + intros key Hin. apply in_map_iff in Hin as (p & <- & _). apply in_all_keys, Hk.
Qed.

(** ** Verifying another password *)

(** [VerifyHash] on an encoded hash: the derivation is called at the stored
    salt and costs and at the length of the stored digest. *)
Lemma VerifyHash_encoded IDKey password salt hash a w :
  0 <= Memory a < 2 ^ 32 -> 0 <= Time a < 2 ^ 32 -> 0 <= Threads a < 2 ^ 8 ->
  fst (VerifyHash IDKey password (encodeHashComponents salt hash a) w) =
  match IDKey (list_byte_of_string password) salt
              (Time a) (Memory a) (Threads a) (uint32 (len hash)) with
  | Some otherHash => Returned (Subtle.ConstantTimeCompare hash otherHash =? 1, None)
  | None => Panicked
  end.
Proof.
  intros Hm Ht Hp.
  rewrite VerifyHash_unfold, decodeHash_encodeHashComponents by assumption.
  cbn [decoded_params Time Memory Threads KeyLen].
  destruct (IDKey _ _ _ _ _ _); reflexivity.
Qed.

(** C5 does not hold: no derivation that returns keys of the length asked
    for rejects every other password, already at the default parameters; two
    passwords with the same 32-byte key verify against each other's hash. *)
Lemma rejection_has_collisions :
  ~ exists IDKey,
      argon2_key_length IDKey /\ argon2_returns IDKey /\ rejects_other_passwords IDKey.
Proof.
  intros (IDKey & Hlen & Hret & Hrej).
  set (salt := firstn 32 (entropy sample_world)).
  set (f := fun p => match IDKey p salt 2 (19 * 1024) 1 32 with
                     | Some key => key
                     | None => []
                     end).
  assert (Hf : forall p, IDKey p salt 2 (19 * 1024) 1 32 = Some (f p)).
  { intros p. unfold f.
    destruct (IDKey p salt 2 (19 * 1024) 1 32) eqn:E; [reflexivity|].
    exfalso. revert E. apply Hret; lia. }
  assert (Hk : forall p, List.length (f p) = 32%nat).
  { intros p. pose proof (Hlen _ _ _ _ _ _ _ (Hf p)) as L. unfold len in L. lia. }
  destruct (key_collision f 32 Hk) as (p1 & p2 & Hne & Hcol).
  assert (Hs : string_of_list_byte p1 <> string_of_list_byte p2).
  { intros E. apply Hne.
    rewrite <- (list_byte_of_string_of_list_byte p1),
      <- (list_byte_of_string_of_list_byte p2), E. reflexivity. }
  assert (Hgen : exists w',
             GenerateHash IDKey DefaultArgon2IDHash
               (list_byte_of_string (string_of_list_byte p1)) [] sample_world
             = (Returned (encodeHashComponents salt (f p1) DefaultArgon2IDHash, None), w')).
  { rewrite GenerateHash_fresh_salt, list_byte_of_string_of_list_byte. cbv zeta.
    change (Z.to_nat (SaltLen DefaultArgon2IDHash)) with 32%nat.
    change (32 <=? List.length (entropy sample_world))%nat with true.
    cbv iota. fold salt.
    change (Time DefaultArgon2IDHash) with 2.
    change (Memory DefaultArgon2IDHash) with (19 * 1024).
    change (Threads DefaultArgon2IDHash) with 1.
    change (KeyLen DefaultArgon2IDHash) with 32.
    rewrite (Hf p1). eexists. reflexivity. }
  destruct Hgen as [w' Hgen].
  pose proof (Hrej _ _ _ _ _ _ default_well_typed Hs Hgen) as R.
  rewrite VerifyHash_encoded in R by (cbn; lia).
  rewrite list_byte_of_string_of_list_byte in R.
  assert (L : uint32 (len (f p1)) = 32).
  { unfold len. rewrite Hk. reflexivity. }
  rewrite L in R.
  change (Time DefaultArgon2IDHash) with 2 in R.
  change (Memory DefaultArgon2IDHash) with (19 * 1024) in R.
  change (Threads DefaultArgon2IDHash) with 1 in R.
  rewrite (Hf p2), <- Hcol, SubtleFacts.ConstantTimeCompare_same in R.
  discriminate R.
Qed.

Section Rejection.

Variable IDKey : list byte -> list byte -> Z -> Z -> Z -> Z -> option (list byte).
Hypothesis IDKey_length : argon2_key_length IDKey.

(** C5, amended. [VerifyHash] with a second password on a hash generated
    from a first one returns no error; it returns [(false, nil)] when the
    key derived from the second password, at the salt and parameters of
    the hash, differs from the stored key of the first, and [(true, nil)]
    when the two keys are the same. *)
Theorem VerifyHash_rejects_other_key a p1 p2 w e w' otherHash :
  well_typed a ->
  GenerateHash IDKey a (list_byte_of_string p1) [] w = (Returned (e, None), w') ->
  IDKey (list_byte_of_string p2) (firstn (Z.to_nat (SaltLen a)) (entropy w))
        (Time a) (Memory a) (Threads a) (KeyLen a) = Some otherHash ->
  exists hash,
    IDKey (list_byte_of_string p1) (firstn (Z.to_nat (SaltLen a)) (entropy w))
          (Time a) (Memory a) (Threads a) (KeyLen a) = Some hash
    /\ (otherHash <> hash -> fst (VerifyHash IDKey p2 e w') = Returned (false, None))
    /\ (otherHash = hash -> fst (VerifyHash IDKey p2 e w') = Returned (true, None)).
Proof.
  intros (Ht & Hm & Hp & Hk & _) Hgen Hother.
  destruct (GenerateHash_returned _ _ _ _ _ _ _ Hgen) as (salt & hash & Hkey & -> & Hs & _).
  rewrite (Hs eq_refl) in *. exists hash. split; [exact Hkey|].
  rewrite VerifyHash_encoded by assumption.
  rewrite (IDKey_length _ _ _ _ _ _ _ Hkey).
  unfold uint32. rewrite Z.mod_small by exact Hk. rewrite Hother.
  split.
  - intros N. rewrite SubtleFacts.ConstantTimeCompare_other by congruence. reflexivity.
  - intros ->. rewrite SubtleFacts.ConstantTimeCompare_same. reflexivity.
Qed.

End Rejection.

(** ** A changed byte in the digest field *)

(** The fields of [pre ++ s]: those of [pre], the last one continued by the
    first field of [s], then the other fields of [s]. *)
Lemma Split_app pre s :
  exists front lastf,
    Split pre = front ++ [lastf]
    /\ Split (pre ++ s) = front ++ (lastf ++ hd "" (Split s))%string :: tl (Split s).
Proof.
  induction pre as [|c pre (front & lastf & E1 & E2)].
  - exists [], "". split; [reflexivity|]. cbn [append app].
    destruct (Split s) eqn:E; [exfalso; exact (Split_nonempty _ E)|reflexivity].
  - cbn [append Split]. rewrite E1, E2. destruct (Ascii.eqb c sep).
    + exists ("" :: front), lastf. split; reflexivity.
    + destruct front as [|f fs].
      * exists [], (String c lastf). split; reflexivity.
      * exists (String c f :: fs), lastf. split; reflexivity.
Qed.

Lemma encodeHashComponents_header salt hash a :
  encodeHashComponents salt hash a = (header a salt ++ Base64.EncodeToString hash)%string.
Proof.
  unfold encodeHashComponents, header, params_field.
  change (Fmt.FormatUint Argon2Version) with "19".
  cbn [append]. rewrite !append_assoc. cbn [append]. rewrite !append_assoc.
  reflexivity.
Qed.

Lemma Split_header a salt d :
  Split (header a salt ++ d)
  = [""; "argon2id"; "v=19"; params_field a; Base64.EncodeToString salt] ++ Split d.
Proof.
  assert (E : (header a salt ++ d)%string
              = ("" ++ String sep ("argon2id" ++ String sep ("v=19" ++ String sep
                   (params_field a ++ String sep
                      (Base64.EncodeToString salt ++ String sep d)))))%string).
  { unfold header. cbn [append]. rewrite !append_assoc. cbn [append].
    rewrite !append_assoc. reflexivity. }
  rewrite E, !Split_field;
    auto using params_field_no_sep, Base64Facts.EncodeToString_no_sep.
Qed.

Lemma EncodeToString_nonempty b src :
  exists c rest, Base64.EncodeToString (b :: src) = String c rest.
Proof. destruct src as [|b1 [|b2 src]]; cbn [Base64.EncodeToString]; eauto. Qed.

(** Whatever the derivation, the first byte of the digest field of a
    generated hash changed into the separator gives a string of seven
    fields, and [VerifyHash] returns [ErrInvalidEncodedHash] with [false],
    not [(false, nil)]. *)
Lemma tampering_can_be_an_error :
  ~ exists IDKey,
      argon2_key_length IDKey /\ argon2_returns IDKey /\ detects_digest_tampering IDKey.
Proof.
  intros (IDKey & Hlen & Hret & Hdet).
  set (a := DefaultArgon2IDHash).
  set (password := "correct horse").
  set (salt := firstn 32 (entropy sample_world)).
  destruct (IDKey (list_byte_of_string password) salt 2 (19 * 1024) 1 32)
    as [hash|] eqn:K; [|revert K; apply Hret; lia].
  pose proof (Hlen _ _ _ _ _ _ _ K) as L.
  destruct hash as [|b hash]; [discriminate L|].
  destruct (EncodeToString_nonempty b hash) as (c & rest & E).
  pose proof (Base64Facts.EncodeToString_no_sep (b :: hash)) as N. rewrite E in N.
  assert (Hc : sep <> c).
  { intros <-. cbn in N. discriminate N. }
  specialize (Hdet password (header a salt) c sep rest sample_world N Hc).
  rewrite <- E, <- encodeHashComponents_header in Hdet.
  rewrite VerifyHash_encoded in Hdet by (cbn; lia).
  unfold uint32 in Hdet. rewrite L in Hdet.
  change (IDKey (list_byte_of_string password) salt 2 (19 * 1024) 1 32 = Some (b :: hash))
    in K.
  change (Time a) with 2 in Hdet. change (Memory a) with (19 * 1024) in Hdet.
  change (Threads a) with 1 in Hdet. change (32 mod 2 ^ 32) with 32 in Hdet.
  rewrite K, SubtleFacts.ConstantTimeCompare_same in Hdet.
  specialize (Hdet eq_refl).
  rewrite VerifyHash_unfold, decodeHash_fields, Split_header in Hdet.
  cbn [Split] in Hdet. rewrite Ascii.eqb_refl in Hdet.
  unfold len in Hdet. rewrite length_app in Hdet. cbn [List.length] in Hdet.
  destruct (Z.eqb_spec (Z.of_nat (5 + S (List.length (Split rest)))) 6) as [E6|N6].
  { pose proof (Split_nonempty rest) as NE.
    destruct (Split rest); [contradiction|]. cbn [List.length] in E6. lia. }
  cbn [negb fst] in Hdet. discriminate Hdet.
Qed.

(** *** A changed byte that still verifies *)

Lemma EncodeToString_triples k :
  forall h t, List.length h = (3 * k)%nat ->
    Base64.EncodeToString (h ++ t)
    = (Base64.EncodeToString h ++ Base64.EncodeToString t)%string.
Proof.
  induction k as [|k IH]; intros h t L.
  - destruct h; [reflexivity|discriminate L].
  - destruct h as [|a [|b [|c h]]]; cbn [List.length] in L; try lia.
    cbn [app Base64.EncodeToString append]. rewrite (IH h t) by lia. reflexivity.
Qed.

Lemma decode_from_triples k :
  forall h t more, List.length h = (3 * k)%nat ->
    (forall si, Base64.decode_from t si 0 [] = inr more) ->
    forall si, Base64.decode_from (Base64.EncodeToString h ++ t) si 0 [] = inr (h ++ more).
Proof.
  induction k as [|k IH]; intros h t more L Ht si.
  - destruct h; [apply Ht|discriminate L].
  - destruct h as [|a [|b [|c h]]]; cbn [List.length] in L; try lia.
    cbn [Base64.EncodeToString append]. rewrite !Base64Facts.decode_from_six. cbn [app].
    rewrite (IH h t more) by (lia || assumption).
    rewrite Base64Facts.quantum_bytes_four. reflexivity.
Qed.

Section RelaxedGroup.

Variables b0 b1 : byte.

Let v : Z := Z.lor (Z.shiftl (byte_to_Z b0) 16) (Z.shiftl (byte_to_Z b1) 8).

Lemma relaxed_value :
  v = Base64.quantum (byte_to_Z b0) (byte_to_Z b1) 0 /\ 0 <= v < 2 ^ 24.
Proof.
  pose proof (byte_to_Z_range b0). pose proof (byte_to_Z_range b1).
  assert (E : v = Base64.quantum (byte_to_Z b0) (byte_to_Z b1) 0)
    by (unfold v, Base64.quantum; rewrite Z.lor_0_r; reflexivity).
  split; [exact E|]. rewrite E. apply Base64Facts.quantum_range; lia.
Qed.

Lemma relaxed_sextet_range : 0 <= Z.lor (Base64.six v 6) 1 < 64.
Proof.
  pose proof (Base64Facts.six_range v 6) as R.
  assert (Hnn : 0 <= Z.lor (Base64.six v 6) 1) by (rewrite Z.lor_nonneg; lia).
  split; [exact Hnn|]. change 64 with (2 ^ 6).
  apply SubtleFacts.below_pow2; [lia|exact Hnn|].
  intros i Hi. rewrite Z.lor_spec.
  rewrite (high_bits (Base64.six v 6) 6) by (change (2 ^ 6) with 64; lia).
  rewrite (high_bits 1 6) by lia. reflexivity.
Qed.

Lemma relaxed_sextet_differs : Z.lor (Base64.six v 6) 1 <> Base64.six v 6.
Proof.
  destruct relaxed_value as [E Hv].
  pose proof (byte_to_Z_range b0) as R0. pose proof (byte_to_Z_range b1) as R1.
  intros H. apply (f_equal (fun z => Z.testbit z 0)) in H.
  rewrite Z.lor_spec in H. change (Z.testbit 1 0) with true in H.
  rewrite orb_true_r in H. unfold Base64.six in H.
  change 63 with (Z.ones 6) in H.
  rewrite Z.land_spec, Z.shiftr_spec, Z.testbit_ones_nonneg in H by lia.
  unfold v in H. rewrite Z.lor_spec, !Z.shiftl_spec in H by lia.
  rewrite !Z.testbit_neg_r in H by lia. discriminate H.
Qed.

Lemma relaxed_third_differs : relaxed_third b0 b1 <> Base64.sextet v 6.
Proof.
  unfold relaxed_third, Base64.sextet. fold v. fold (Base64.six v 6). intros H.
  apply (f_equal Base64.decodeMap) in H.
  rewrite !Base64Facts.decodeMap_encode in H
    by (apply relaxed_sextet_range || apply Base64Facts.six_range).
  exact (relaxed_sextet_differs H).
Qed.

Lemma relaxed_bytes :
  Base64.quantum_bytes [Base64.six v 18; Base64.six v 12; Z.lor (Base64.six v 6) 1] 3
  = [b0; b1].
Proof.
  destruct relaxed_value as [E Hv].
  pose proof (byte_to_Z_range b0) as R0. pose proof (byte_to_Z_range b1) as R1.
  rewrite <- (Base64Facts.quantum_bytes_three b0 b1). fold v.
  unfold Base64.quantum_bytes. cbn [nth firstn Nat.sub].
  rewrite <- (byte_of_Z_mod (Z.shiftr _ 16)), <- (byte_of_Z_mod (Z.shiftr _ 8)).
  rewrite <- (byte_of_Z_mod (Z.shiftr (Z.lor (Z.lor (Z.lor _ _) (Z.shiftl (Base64.six v 6) 6)) 0) 16)),
    <- (byte_of_Z_mod (Z.shiftr (Z.lor (Z.lor (Z.lor _ _) (Z.shiftl (Base64.six v 6) 6)) 0) 8)).
  assert (Hi : Z.shiftr (Z.lor (Z.lor (Z.lor (Z.shiftl (Base64.six v 18) 18)
                                             (Z.shiftl (Base64.six v 12) 12))
                                      (Z.shiftl (Z.lor (Base64.six v 6) 1) 6)) 0) 16 mod 2 ^ 8
               = Z.shiftr (Z.lor (Z.lor (Z.lor (Z.shiftl (Base64.six v 18) 18)
                                               (Z.shiftl (Base64.six v 12) 12))
                                        (Z.shiftl (Base64.six v 6) 6)) 0) 16 mod 2 ^ 8).
  { pose proof (high_bits 1 1 ltac:(lia)). generalize (Base64.six v 18), (Base64.six v 12), (Base64.six v 6).
    intros s0 s1 s2. same_bits. }
  assert (Mid : Z.shiftr (Z.lor (Z.lor (Z.lor (Z.shiftl (Base64.six v 18) 18)
                                              (Z.shiftl (Base64.six v 12) 12))
                                       (Z.shiftl (Z.lor (Base64.six v 6) 1) 6)) 0) 8 mod 2 ^ 8
                = Z.shiftr (Z.lor (Z.lor (Z.lor (Z.shiftl (Base64.six v 18) 18)
                                                (Z.shiftl (Base64.six v 12) 12))
                                         (Z.shiftl (Base64.six v 6) 6)) 0) 8 mod 2 ^ 8).
  { pose proof (high_bits 1 1 ltac:(lia)). generalize (Base64.six v 18), (Base64.six v 12), (Base64.six v 6).
    intros s0 s1 s2. same_bits. }
  rewrite Hi, Mid. reflexivity.
Qed.

Lemma decode_relaxed_group si :
  Base64.decode_from
    (String (Base64.sextet v 18) (String (Base64.sextet v 12)
       (String (relaxed_third b0 b1) (String Base64.padChar "")))) si 0 []
  = inr [b0; b1].
Proof.
  rewrite !Base64Facts.decode_from_six. cbn [app].
  unfold relaxed_third. fold v.
  rewrite Base64Facts.decode_from_sextet
    by (apply Base64Facts.encode_in_alphabet, relaxed_sextet_range).
  rewrite Base64Facts.decodeMap_encode by apply relaxed_sextet_range.
  cbn [app]. rewrite Base64Facts.decode_from_pad3.
  unfold Base64.after_padding. cbn [Base64.skip_newlines].
  rewrite relaxed_bytes. reflexivity.
Qed.

End RelaxedGroup.

Lemma decodeHash_header a salt d hash :
  0 <= Memory a < 2 ^ 32 -> 0 <= Time a < 2 ^ 32 -> 0 <= Threads a < 2 ^ 8 ->
  no_sep d = true -> Base64.DecodeString d = inr hash ->
  decodeHash (header a salt ++ d) = inr (decoded_params a salt hash, salt, hash).
Proof.
  intros Hm Ht Hp N D. rewrite decodeHash_fields, Split_header, (Split_no_sep _ N).
  cbn [app len List.length nth].
  change (negb (Z.of_nat 6 =? 6)) with false. cbv iota.
  change (Fmt.Sscanf_v "v=19") with (@inr scan_failure Z 19).
  unfold params_field. rewrite FmtFacts.Sscanf_mtp_roundtrip by assumption.
  rewrite Base64Facts.DecodeString_EncodeToString, D. reflexivity.
Qed.

(** Not even the weaker form holds: whatever the derivation, in a hash
    generated at the default parameters (a digest of 32 bytes, so a
    last group of three characters and one padding character) the last
    character before the padding can be changed and the hash still verifies
    with [(true, nil)]. *)
Lemma changed_digest_can_verify :
  ~ exists IDKey,
      argon2_key_length IDKey /\ argon2_returns IDKey /\ rejects_changed_digest IDKey.
Proof.
  intros (IDKey & Hlen & Hret & Hrej).
  set (a := DefaultArgon2IDHash).
  set (salt := firstn 32 (entropy sample_world)).
  destruct (IDKey (list_byte_of_string sample_password) salt 2 (19 * 1024) 1 32)
    as [hash|] eqn:K; [|revert K; apply Hret; lia].
  pose proof (Hlen _ _ _ _ _ _ _ K) as L.
  assert (L32 : List.length hash = 32%nat) by (unfold len in L; lia).
  assert (Lh : List.length (firstn 30 hash) = (3 * 10)%nat)
    by (rewrite length_firstn; lia).
  assert (Lt : List.length (skipn 30 hash) = 2%nat) by (rewrite length_skipn; lia).
  pose proof (firstn_skipn 30 hash) as Ehash.
  destruct (skipn 30 hash) as [|b0 [|b1 [|b2 tl]]]; try discriminate Lt. clear Lt.
  set (h := firstn 30 hash) in *.
  set (v := Z.lor (Z.shiftl (byte_to_Z b0) 16) (Z.shiftl (byte_to_Z b1) 8)).
  set (pre := (header a salt ++ Base64.EncodeToString h
                 ++ String (Base64.sextet v 18) (String (Base64.sextet v 12) ""))%string).
  assert (Ee : encodeHashComponents salt hash a
               = (pre ++ String (Base64.sextet v 6) (String Base64.padChar ""))%string).
  { rewrite encodeHashComponents_header, <- Ehash, (EncodeToString_triples 10) by exact Lh.
    unfold pre. rewrite !append_assoc. reflexivity. }
  assert (V : fst (VerifyHash IDKey sample_password
                     (pre ++ String (Base64.sextet v 6) (String Base64.padChar ""))
                     sample_world) = Returned (true, None)).
  { rewrite <- Ee, VerifyHash_encoded by (cbn; lia).
    unfold uint32. rewrite L. change (32 mod 2 ^ 32) with 32.
    change (Time a) with 2. change (Memory a) with (19 * 1024). change (Threads a) with 1.
    rewrite K, SubtleFacts.ConstantTimeCompare_same. reflexivity. }
  assert (N : no_sep (String (Base64.sextet v 6) (String Base64.padChar "")) = true).
  { cbn [no_sep].
    rewrite (Base64Facts.in_alphabet_not_sep _ (Base64Facts.sextet_in_alphabet _ _)).
    reflexivity. }
  apply (Hrej sample_password pre (Base64.sextet v 6) (relaxed_third b0 b1)
              (String Base64.padChar "") sample_world N (relaxed_third_differs b0 b1) V).
  set (d := (Base64.EncodeToString h
               ++ String (Base64.sextet v 18) (String (Base64.sextet v 12)
                    (String (relaxed_third b0 b1) (String Base64.padChar ""))))%string).
  assert (Ed : (pre ++ String (relaxed_third b0 b1) (String Base64.padChar ""))%string
               = (header a salt ++ d)%string).
  { unfold pre, d. rewrite !append_assoc. reflexivity. }
  assert (Nd : no_sep d = true).
  { unfold d. rewrite no_sep_app, Base64Facts.EncodeToString_no_sep. cbn [no_sep andb].
    rewrite !(Base64Facts.in_alphabet_not_sep _ (Base64Facts.sextet_in_alphabet _ _)).
    assert (R : Base64.in_alphabet (relaxed_third b0 b1) = true).
    { unfold Base64.in_alphabet, relaxed_third. apply negb_true_iff, Z.eqb_neq.
      apply Base64Facts.encode_in_alphabet, relaxed_sextet_range. }
    rewrite (Base64Facts.in_alphabet_not_sep _ R). reflexivity. }
  assert (Dd : Base64.DecodeString d = inr hash).
  { unfold Base64.DecodeString, d.
    rewrite (decode_from_triples 10 h _ [b0; b1] Lh (decode_relaxed_group b0 b1)).
    rewrite Ehash. reflexivity. }
  rewrite Ed, VerifyHash_unfold, (decodeHash_header a salt d hash) by (assumption || cbn; lia).
  cbn [decoded_params Time Memory Threads KeyLen]. unfold uint32. rewrite L.
  change (32 mod 2 ^ 32) with 32.
  change (Time a) with 2. change (Memory a) with (19 * 1024). change (Threads a) with 1.
  rewrite K. cbn [fst]. rewrite SubtleFacts.ConstantTimeCompare_same. reflexivity.
Qed.

(** C6 does not hold, for any derivation that returns keys of the length
    asked for: a changed byte of the digest field can make [VerifyHash]
    return an error (the first character turned into the separator), and
    it can leave [(true, nil)] (the last character before the padding, in
    its two unused bits); in neither case the result is [(false, nil)]. *)
Lemma digest_tampering_not_always_rejected :
  (~ exists IDKey,
       argon2_key_length IDKey /\ argon2_returns IDKey /\ detects_digest_tampering IDKey)
  /\ (~ exists IDKey,
         argon2_key_length IDKey /\ argon2_returns IDKey /\ rejects_changed_digest IDKey).
Proof. split; [exact tampering_can_be_an_error|exact changed_digest_can_verify]. Qed.

Section Tampering.

Variable IDKey : list byte -> list byte -> Z -> Z -> Z -> Z -> option (list byte).

(** C6, amended. Let an encoded hash verify with its password, and let one
    byte of its last field, the digest, be replaced. If the new string no
    longer decodes, [VerifyHash] returns [false] with the error of
    [decodeHash]. If it decodes, salt and costs are unchanged and the new
    digest is what the changed field decodes to; [VerifyHash] derives a key
    of the length of the new digest with the unchanged salt and costs, and
    it returns [(true, nil)] exactly when that key is the new digest,
    [(false, nil)] exactly when it is another one, and it panics exactly
    when the derivation does. So it returns [(true, nil)] when the field
    decodes to the same bytes as before and [(false, nil)] when it decodes
    to other bytes of the same number; when it decodes to bytes of another
    number (a byte changed into the padding character, or out of it), the
    result is the one that the key derived at the new length gives. *)
Theorem changed_digest_byte password pre c c' post w a salt hash :
  no_sep (String c post) = true ->
  decodeHash (pre ++ String c post) = inr (a, salt, hash) ->
  fst (VerifyHash IDKey password (pre ++ String c post) w) = Returned (true, None) ->
  match decodeHash (pre ++ String c' post) with
  | inl err =>
      fst (VerifyHash IDKey password (pre ++ String c' post) w)
      = Returned (false, Some err)
  | inr (a', salt', hash') =>
      salt' = salt /\ Time a' = Time a /\ Memory a' = Memory a
      /\ Threads a' = Threads a
      /\ (hash' = hash ->
          fst (VerifyHash IDKey password (pre ++ String c' post) w)
          = Returned (true, None))
      /\ (hash' <> hash -> len hash' = len hash ->
          fst (VerifyHash IDKey password (pre ++ String c' post) w)
          = Returned (false, None))
      /\ Base64.DecodeString (nth 5 (Split (pre ++ String c' post)) "") = inr hash'
      /\ KeyLen a' = uint32 (len hash')
      /\ (fst (VerifyHash IDKey password (pre ++ String c' post) w)
          = Returned (true, None)
          <-> IDKey (list_byte_of_string password) salt
                    (Time a) (Memory a) (Threads a) (uint32 (len hash')) = Some hash')
      /\ (fst (VerifyHash IDKey password (pre ++ String c' post) w)
          = Returned (false, None)
          <-> exists otherHash,
                IDKey (list_byte_of_string password) salt
                      (Time a) (Memory a) (Threads a) (uint32 (len hash'))
                = Some otherHash
                /\ otherHash <> hash')
      /\ (fst (VerifyHash IDKey password (pre ++ String c' post) w) = Panicked
          <-> IDKey (list_byte_of_string password) salt
                    (Time a) (Memory a) (Threads a) (uint32 (len hash')) = None)
  end.
Proof.
  intros N D V.
  rewrite VerifyHash_unfold, D in V.
  destruct (IDKey _ _ _ _ _ _) as [otherHash|] eqn:K; [|discriminate V].
  cbn [fst] in V. rewrite SubtleFacts.ConstantTimeCompare_spec in V.
  destruct (list_eq_dec byte_eq_dec hash otherHash) as [<-|]; [clear V|discriminate V].
  destruct (decodeHash (pre ++ String c' post)) as [err|[[a' salt'] hash']] eqn:D';
    [rewrite VerifyHash_unfold, D'; reflexivity|].
  apply decodeHash_inr in D as (L & _ & P & S & _ & SL & KL).
  pose proof (decodeHash_inr _ _ _ _ D') as (L' & _ & P' & S' & H' & SL' & KL').
  destruct (Split_app pre (String c post)) as (front & lastf & F & E).
  destruct (Split_app pre (String c' post)) as (front' & lastf' & F' & E').
  rewrite F in F'. apply app_inj_tail in F' as [<- <-].
  rewrite (Split_no_sep _ N) in E. cbn [hd tl] in E.
  assert (L5 : List.length front = 5%nat).
  { unfold len in L. rewrite E, last_length in L. lia. }
  assert (Npost : no_sep post = true).
  { cbn [no_sep] in N. apply andb_prop in N as [_ N]. exact N. }
  destruct (Ascii.eqb c' sep) eqn:C'.
  { exfalso. cbn [Split] in E'. rewrite C', (Split_no_sep _ Npost) in E'.
    cbn [hd tl] in E'. unfold len in L'. rewrite E', length_app in L'.
    cbn [List.length] in L'. lia. }
  assert (N' : no_sep (String c' post) = true) by (cbn [no_sep]; rewrite C', Npost; auto).
  rewrite (Split_no_sep _ N') in E'. cbn [hd tl] in E'.
  assert (Same : forall i, (i < 5)%nat ->
             nth i (Split (pre ++ String c' post)) ""
             = nth i (Split (pre ++ String c post)) "").
  { intros i Hi. rewrite E, E', !app_nth1 by lia. reflexivity. }
  rewrite (Same 3%nat) in P' by lia. rewrite (Same 4%nat) in S' by lia.
  rewrite P in P'. injection P' as Em Et Ep. rewrite S in S'. injection S' as Es.
  subst salt'.
  assert (Call : len hash' = len hash ->
            IDKey (list_byte_of_string password) salt
                  (Time a') (Memory a') (Threads a') (KeyLen a') = Some hash).
  { intros El. rewrite <- Em, <- Et, <- Ep, KL', El, <- KL. exact K. }
  assert (R : fst (VerifyHash IDKey password (pre ++ String c' post) w)
              = match IDKey (list_byte_of_string password) salt
                            (Time a) (Memory a) (Threads a) (uint32 (len hash')) with
                | Some otherHash =>
                    Returned (Subtle.ConstantTimeCompare hash' otherHash =? 1, None)
                | None => Panicked
                end).
  { rewrite VerifyHash_unfold, D', <- Em, <- Et, <- Ep, KL'.
    destruct (IDKey _ _ _ _ _ (uint32 (len hash'))); reflexivity. }
  split; [reflexivity|]. split; [auto|]. split; [auto|]. split; [auto|].
  split.
  { intros ->. rewrite VerifyHash_unfold, D', (Call eq_refl).
    cbn [fst]. rewrite SubtleFacts.ConstantTimeCompare_same. reflexivity. }
  split.
  { intros Hne El. rewrite VerifyHash_unfold, D', (Call El).
    cbn [fst]. rewrite SubtleFacts.ConstantTimeCompare_other by exact Hne. reflexivity. }
  split; [exact H'|]. split; [exact KL'|].
  rewrite R. clear R.
  destruct (IDKey _ _ _ _ _ (uint32 (len hash'))) as [otherHash|].
  - rewrite SubtleFacts.ConstantTimeCompare_spec.
    destruct (list_eq_dec byte_eq_dec hash' otherHash) as [<-|Ne];
      [change (1 =? 1) with true|change (0 =? 1) with false].
    + split; [split; auto|]. split; [|split; discriminate].
      split; [discriminate|]. intros (k & Ek & Nk). congruence.
    + split; [split; [discriminate|congruence]|]. split; [|split; discriminate].
      split; [|reflexivity]. intros _. exists otherHash. split; congruence.
  - split; [split; discriminate|]. split; [|split; reflexivity].
    split; [discriminate|]. intros (k & Ek & _). discriminate.
Qed.

End Tampering.

(** * Further properties of the operations *)

(** ** Fields that are never read *)

(** X1. The fields in front of the version, the scheme among them, are never
    read: two strings that agree from the version field on decode to the
    same result, error or not, and verify alike. *)
Theorem scheme_is_never_checked e1 e2 :
  differ_before_version e1 e2 ->
  decodeHash e1 = decodeHash e2
  /\ forall IDKey password w,
       VerifyHash IDKey password e1 w = VerifyHash IDKey password e2 w.
Proof.
  intros [Hlen Hnth].
  assert (D : decodeHash e1 = decodeHash e2).
  { rewrite !decodeHash_fields. unfold len. rewrite Hlen.
    rewrite (Hnth 2%nat), (Hnth 3%nat), (Hnth 4%nat), (Hnth 5%nat) by lia.
    reflexivity. }
  split; [exact D|]. intros IDKey password w. rewrite !VerifyHash_unfold, D. reflexivity.
Qed.

(** ** What verification touches *)

(** X2. [VerifyHash] reads no entropy and writes no log line. On a string that
    does not decode it leaves the world as it is, so no derivation is made;
    on one that decodes it makes exactly one derivation, with the password
    and the decoded salt and parameters. *)
Theorem VerifyHash_footprint IDKey password encodedHash w :
  entropy (snd (VerifyHash IDKey password encodedHash w)) = entropy w
  /\ logged (snd (VerifyHash IDKey password encodedHash w)) = logged w
  /\ (forall err,
         decodeHash encodedHash = inl err ->
         VerifyHash IDKey password encodedHash w = (Returned (false, Some err), w))
  /\ (forall a salt hash,
         decodeHash encodedHash = inr (a, salt, hash) ->
         derivations (snd (VerifyHash IDKey password encodedHash w))
         = mkDerivation (list_byte_of_string password) salt
             (Time a) (Memory a) (Threads a) (uint32 (len hash))
             :: derivations w).
Proof.
  rewrite VerifyHash_unfold.
  destruct (decodeHash encodedHash) as [err0|[[a salt] hash]] eqn:D.
  - repeat split; try reflexivity.
    + intros err E. injection E as <-. reflexivity.
    + intros a salt hash E. discriminate E.
  - destruct (decodeHash_inr _ _ _ _ D) as (_ & _ & _ & _ & _ & _ & KL).
    destruct (IDKey _ _ _ _ _ _); cbn [snd note_derivation entropy logged derivations];
      (repeat split; try reflexivity;
       [intros err E; discriminate E
       |intros a' salt' hash' E; injection E as <- <- <-;
        unfold verify_call; rewrite KL; reflexivity]).
Qed.

(** ** The errors of verification *)

Lemma Split_length s : len (Split s) = 1 + count_sep s.
Proof.
  unfold len. induction s as [|c s IH]; [reflexivity|].
  cbn [Split count_sep]. destruct (Ascii.eqb c sep).
  - cbn [List.length]. lia.
  - pose proof (Split_nonempty s) as NE.
    destruct (Split s) as [|f fs]; [contradiction|]. cbn [List.length] in *. lia.
Qed.

(** The error of [decodeHash] is one of four kinds. *)
Lemma decodeHash_error_kinds e err :
  decodeHash e = inl err ->
  err = ErrInvalidEncodedHash \/ err = ErrIncompatibleArgon2Version
  \/ (exists why, err = ErrScan why) \/ (exists offset, err = CorruptInputError offset).
Proof.
  rewrite decodeHash_fields.
  destruct (negb _); [intros E; injection E as <-; auto|].
  destruct (Fmt.Sscanf_v _); [intros E; injection E as <-; auto|].
  destruct (Fmt.Sscanf_mtp _) as [why|[[m t] p]]; [intros E; injection E as <-; eauto|].
  destruct (Base64.DecodeString (nth 4 _ _)) as [e4|salt] eqn:D4.
  { intros E. injection E as <-. apply Base64Facts.DecodeString_error in D4. auto. }
  destruct (Base64.DecodeString (nth 5 _ _)) as [e5|hash] eqn:D5; [|discriminate].
  intros E. injection E as <-. apply Base64Facts.DecodeString_error in D5. auto.
Qed.

(** X3. [VerifyHash] returns [ErrInvalidEncodedHash] exactly on the strings in
    which the number of separators is not five, whatever else they hold;
    and the only errors it ever returns are that one, the version error, an
    error of the scan of the cost field and a base64 error (never the
    salt-length or the entropy error of generation). *)
Theorem VerifyHash_error_kinds IDKey password encodedHash w :
  (fst (VerifyHash IDKey password encodedHash w)
   = Returned (false, Some ErrInvalidEncodedHash)
   <-> count_sep encodedHash <> 5)
  /\ forall b err,
       fst (VerifyHash IDKey password encodedHash w) = Returned (b, Some err) ->
       err = ErrInvalidEncodedHash \/ err = ErrIncompatibleArgon2Version
       \/ (exists why, err = ErrScan why)
       \/ (exists offset, err = CorruptInputError offset).
Proof.
  split.
  - rewrite VerifyHash_unfold.
    pose proof (Split_length encodedHash) as SL.
    destruct (decodeHash encodedHash) as [err|[[a salt] hash]] eqn:D.
    + cbn [fst]. rewrite decodeHash_fields in D.
      destruct (Z.eqb_spec (len (Split encodedHash)) 6) as [E6|N6]; cbn [negb] in D.
      * split; [|lia]. intros E. injection E as ->. exfalso.
        destruct (Fmt.Sscanf_v _); [discriminate D|].
        destruct (Fmt.Sscanf_mtp _) as [|[[m t] p]]; [discriminate D|].
        destruct (Base64.DecodeString (nth 4 _ _)) as [e4|salt] eqn:D4.
        { apply Base64Facts.DecodeString_error in D4 as [off ->]. discriminate D. }
        destruct (Base64.DecodeString (nth 5 _ _)) as [e5|hash] eqn:D5; [|discriminate D].
        apply Base64Facts.DecodeString_error in D5 as [off ->]. discriminate D.
      * injection D as <-. split; [lia|reflexivity].
    + apply decodeHash_inr in D as (L & _).
      destruct (IDKey _ _ _ _ _ _); cbn [fst]; (split; [discriminate|lia]).
  - intros b err. rewrite VerifyHash_unfold.
    destruct (decodeHash encodedHash) as [err0|[[a salt] hash]] eqn:D.
    + cbn [fst]. intros E. injection E as _ <-. exact (decodeHash_error_kinds _ _ D).
    + destruct (IDKey _ _ _ _ _ _); cbn [fst]; discriminate.
Qed.

(** ** The errors of generation *)

(** X4. [GenerateHash] returns [ErrInvalidSaltLength] exactly for a non-empty
    salt whose length, truncated to 32 bits, is not [SaltLen]. For an empty
    salt when fewer than [SaltLen] bytes of entropy are left, what happens
    is what [crypto/rand] does: with the one that returns its errors (before
    Go 1.24) [GenerateHash] returns the error of the read, and with the
    one that ends the process on a failed read (Go 1.24 and later) it does
    not return; these are the only cases of either. [GenerateHash] returns
    no other error; with an error the string returned is empty, and
    neither then nor when the process ends has a derivation been made. *)
Theorem GenerateHash_error_cases IDKey a password salt w :
  (fst (GenerateHash IDKey a password salt w) = Returned ("", Some ErrInvalidSaltLength)
   <-> 0 < len salt /\ uint32 (len salt) <> SaltLen a)
  /\ (fst (GenerateHash IDKey a password salt w) = Returned ("", Some ErrRandRead)
      <-> salt = [] /\ (List.length (entropy w) < Z.to_nat (SaltLen a))%nat
          /\ rand_fatal w = false)
  /\ (fst (GenerateHash IDKey a password salt w) = Aborted
      <-> salt = [] /\ (List.length (entropy w) < Z.to_nat (SaltLen a))%nat
          /\ rand_fatal w = true)
  /\ (forall s err,
         fst (GenerateHash IDKey a password salt w) = Returned (s, Some err) ->
         s = "" /\ (err = ErrInvalidSaltLength \/ err = ErrRandRead)
         /\ derivations (snd (GenerateHash IDKey a password salt w)) = derivations w)
  /\ (fst (GenerateHash IDKey a password salt w) = Aborted ->
      derivations (snd (GenerateHash IDKey a password salt w)) = derivations w).
Proof.
  destruct salt as [|b salt].
  - rewrite GenerateHash_fresh_salt. cbv zeta.
    change (len (@nil byte)) with 0.
    destruct (Nat.leb_spec (Z.to_nat (SaltLen a)) (List.length (entropy w))) as [Hle|Hlt].
    + destruct (IDKey _ _ _ _ _ _); cbn [fst snd];
        (split; [|split; [|split; [|split]]]).
      all: try (split; [discriminate|intros (? & ? & ?); lia]).
      all: try (split; [discriminate|intros [? ?]; lia]).
      all: try (intros s err E; discriminate E).
      all: intros E; discriminate E.
    + destruct (rand_fatal w); cbn [fst snd derivations];
        (split; [|split; [|split; [|split]]]).
      all: try (split; [discriminate|intros [? ?]; lia]).
      all: try (split; [discriminate|intros (? & ? & ?); discriminate]).
      all: try (split; auto; fail).
      all: try (intros s err E; first [discriminate E|injection E as <- <-]; auto).
      all: auto.
  - assert (Hpos : 0 < len (b :: salt)) by (unfold len; cbn [List.length]; lia).
    destruct (Z.eq_dec (uint32 (len (b :: salt))) (SaltLen a)) as [Hlen|Hlen].
    + rewrite (GenerateHash_given_salt IDKey a password _ w Hpos Hlen). cbv zeta.
      destruct (IDKey _ _ _ _ _ _); cbn [fst snd];
        (split; [|split; [|split; [|split]]]).
      all: try (split; [discriminate|intros [? ?]; contradiction]).
      all: try (split; [discriminate|intros (? & ? & ?); discriminate]).
      all: try (intros s err E; discriminate E).
      all: intros E; discriminate E.
    + destruct (GenerateHash_rejected_salt IDKey a password _ w Hpos Hlen) as [line E].
      rewrite E. cbn [fst snd derivations].
      split; [|split; [|split; [|split]]].
      * split; auto.
      * split; [discriminate|intros (? & ? & ?); discriminate].
      * split; [discriminate|intros (? & ? & ?); discriminate].
      * intros s err E'. injection E' as <- <-. auto.
      * reflexivity.
Qed.

(** ** Generation with a salt of the caller *)

Section GivenSalt.

Variable IDKey : list byte -> list byte -> Z -> Z -> Z -> Z -> option (list byte).
Hypothesis IDKey_length : argon2_key_length IDKey.

(** X5. With a non-empty salt of [SaltLen] bytes, [GenerateHash] reads no
    entropy and returns the same result in every world; the hash it returns
    stores that salt as it is and verifies with the password. *)
Theorem GenerateHash_with_salt a password salt w e w' :
  well_typed a ->
  0 < len salt -> len salt = SaltLen a ->
  GenerateHash IDKey a (list_byte_of_string password) salt w = (Returned (e, None), w') ->
  entropy w' = entropy w
  /\ (forall w2,
         fst (GenerateHash IDKey a (list_byte_of_string password) salt w2)
         = Returned (e, None))
  /\ (exists hash, decodeHash e = inr (a, salt, hash))
  /\ fst (VerifyHash IDKey password e w') = Returned (true, None).
Proof.
  intros (Ht & Hm & Hp & Hk & Hs) Hpos Hlen Hgen.
  assert (Hlen32 : uint32 (len salt) = SaltLen a)
    by (unfold uint32; rewrite Hlen; apply Z.mod_small; exact Hs).
  pose proof (GenerateHash_given_salt IDKey a (list_byte_of_string password) salt)
    as G. cbv zeta in G.
  rewrite (G w Hpos Hlen32) in Hgen.
  destruct (IDKey _ _ _ _ _ _) as [hash|] eqn:K; [|discriminate Hgen].
  injection Hgen as <- <-.
  pose proof (IDKey_length _ _ _ _ _ _ _ K) as L.
  assert (L32 : uint32 (len hash) = KeyLen a)
    by (unfold uint32; rewrite L; apply Z.mod_small; exact Hk).
  split; [reflexivity|]. split; [|split].
  - intros w2. rewrite (G w2 Hpos Hlen32). reflexivity.
  - exists hash. rewrite decodeHash_encodeHashComponents by assumption.
    unfold decoded_params. rewrite L32, Hlen32. destruct a; reflexivity.
  - rewrite VerifyHash_encoded by assumption.
    rewrite L32, K, SubtleFacts.ConstantTimeCompare_same. reflexivity.
Qed.

(** X6. A hash generated without a salt carries the whole parameter set:
    [decodeHash] gives back the five parameters it was generated with, a
    salt of [SaltLen] bytes, which are the next bytes of entropy, and a
    digest of [KeyLen] bytes; generation has used up exactly these bytes of
    entropy. *)
Theorem generated_hash_carries_parameters a password w e w' :
  well_typed a ->
  GenerateHash IDKey a password [] w = (Returned (e, None), w') ->
  exists salt hash,
    decodeHash e = inr (a, salt, hash)
    /\ len salt = SaltLen a /\ len hash = KeyLen a
    /\ entropy w = salt ++ entropy w'.
Proof.
  intros (Ht & Hm & Hp & Hk & Hs) Hgen.
  rewrite GenerateHash_fresh_salt in Hgen. cbv zeta in Hgen.
  destruct (Nat.leb_spec (Z.to_nat (SaltLen a)) (List.length (entropy w))) as [Hle|Hlt];
    [|destruct (rand_fatal w); discriminate Hgen].
  destruct (IDKey _ _ _ _ _ _) as [hash|] eqn:K; [|discriminate Hgen].
  injection Hgen as <- <-.
  pose proof (IDKey_length _ _ _ _ _ _ _ K) as L.
  set (salt := firstn (Z.to_nat (SaltLen a)) (entropy w)) in *.
  assert (Ls : len salt = SaltLen a).
  { unfold len, salt. rewrite length_firstn. lia. }
  exists salt, hash. repeat split; try assumption.
  - rewrite decodeHash_encodeHashComponents by assumption.
    unfold decoded_params, uint32. rewrite L, Ls, !Z.mod_small by assumption.
    destruct a; reflexivity.
  - cbn [entropy note_derivation after_read]. unfold salt.
    symmetry. apply firstn_skipn.
Qed.

End GivenSalt.

(** ** Different records, different strings *)

(** X7. [encodeHashComponents] is injective in the salt, the digest and the
    three cost parameters it writes: two encoded hashes are the same string
    exactly when these are the same. *)
Theorem encodeHashComponents_injective salt1 hash1 a1 salt2 hash2 a2 :
  costs_in_range a1 -> costs_in_range a2 ->
  encodeHashComponents salt1 hash1 a1 = encodeHashComponents salt2 hash2 a2
  <-> salt1 = salt2 /\ hash1 = hash2 /\ Memory a1 = Memory a2
      /\ Time a1 = Time a2 /\ Threads a1 = Threads a2.
Proof.
  intros (Hm1 & Ht1 & Hp1) (Hm2 & Ht2 & Hp2). split.
  - intros E. apply (f_equal decodeHash) in E.
    rewrite !decodeHash_encodeHashComponents in E by assumption.
    injection E as Et Em Ep _ _ Es Eh. auto.
  - intros (-> & -> & Em & Et & Ep). unfold encodeHashComponents.
    rewrite Em, Et, Ep. reflexivity.
Qed.

(** ** What the scan of the fields lets through, and what it stops *)

Lemma scanUint_formatted bitSize n rest :
  0 <= bitSize <= 64 -> 0 <= n < 2 ^ 64 -> Fmt.no_digit_ahead rest = true ->
  Fmt.scanUint bitSize (Fmt.FormatUint n ++ rest)
  = if 2 ^ bitSize <=? n then inl IntegerOverflow else inr (n, rest).
Proof.
  intros Hb Hn Hrest.
  destruct (FmtFacts.FormatUint_spec n Hn) as (Hall & Hne & Hval).
  unfold Fmt.scanUint.
  destruct (Fmt.FormatUint n) as [|c tok] eqn:E; [congruence|].
  cbn [append]. cbn [Fmt.all_digits] in Hall. apply andb_prop in Hall as [Hc Hall].
  rewrite (FmtFacts.SkipSpace_digit _ _ Hc). unfold Fmt.scanNumber. rewrite Hc.
  change (String c (tok ++ rest)%string) with (String c tok ++ rest)%string.
  rewrite FmtFacts.accept_digits_app
    by (cbn [Fmt.all_digits]; rewrite ?Hc, ?Hall; auto).
  rewrite Hval. destruct (Z.leb_spec (2 ^ 64) n); [lia|]. reflexivity.
Qed.

(** The scan of a cost field written in decimal, with any text after it
    that does not go on with a digit: the text is not looked at, and a
    number too wide for its variable is an overflow. *)
Lemma Sscanf_mtp_formatted a rest :
  0 <= Memory a < 2 ^ 64 -> 0 <= Time a < 2 ^ 64 -> 0 <= Threads a < 2 ^ 64 ->
  Fmt.no_digit_ahead rest = true ->
  Fmt.Sscanf_mtp (params_field a ++ rest)
  = if 2 ^ 32 <=? Memory a then inl IntegerOverflow
    else if 2 ^ 32 <=? Time a then inl IntegerOverflow
    else if 2 ^ 8 <=? Threads a then inl IntegerOverflow
    else inr (Memory a, Time a, Threads a).
Proof.
  intros Hm Ht Hp Hrest. unfold params_field, Fmt.Sscanf_mtp.
  rewrite !append_assoc. cbn [Fmt.advance append Ascii.eqb Bool.eqb].
  rewrite scanUint_formatted by (try lia; reflexivity).
  destruct (2 ^ 32 <=? Memory a); [reflexivity|].
  cbn [Fmt.advance append Ascii.eqb Bool.eqb].
  rewrite scanUint_formatted by (try lia; reflexivity).
  destruct (2 ^ 32 <=? Time a); [reflexivity|].
  cbn [Fmt.advance append Ascii.eqb Bool.eqb].
  rewrite scanUint_formatted by (try lia; assumption).
  destruct (2 ^ 8 <=? Threads a); reflexivity.
Qed.

Lemma Sscanf_v_trailing rest :
  Fmt.no_digit_ahead rest = true -> Fmt.Sscanf_v ("v=19" ++ rest) = inr 19.
Proof.
  intros Hrest. unfold Fmt.Sscanf_v. cbn [Fmt.advance append Ascii.eqb Bool.eqb].
  unfold Fmt.scanInt. rewrite FmtFacts.SkipSpace_digit by reflexivity.
  change (Ascii.eqb "1" "-") with false. change (Ascii.eqb "1" "+") with false.
  cbn [orb]. unfold Fmt.scanNumber. change (Fmt.is_digit "1") with true. cbv iota.
  change (String "1" (String "9" rest)) with ("19" ++ rest)%string.
  rewrite FmtFacts.accept_digits_app by (assumption || reflexivity).
  reflexivity.
Qed.

Lemma with_trailing_text_fields salt hash a after_version after_costs :
  no_sep after_version = true -> no_sep after_costs = true ->
  Split (with_trailing_text salt hash a after_version after_costs)
  = [""; "argon2id"; ("v=19" ++ after_version)%string;
     (params_field a ++ after_costs)%string;
     Base64.EncodeToString salt; Base64.EncodeToString hash].
Proof.
  intros N1 N2.
  assert (E : with_trailing_text salt hash a after_version after_costs
              = ("" ++ String sep ("argon2id" ++ String sep
                   (("v=19" ++ after_version) ++ String sep
                      ((params_field a ++ after_costs) ++ String sep
                         (Base64.EncodeToString salt
                            ++ String sep (Base64.EncodeToString hash))))))%string).
  { unfold with_trailing_text. cbn [append]. rewrite !append_assoc. cbn [append].
    reflexivity. }
  rewrite E, !Split_field, Split_no_sep; try reflexivity;
    rewrite ?no_sep_app, ?N1, ?N2, ?params_field_no_sep;
    auto using Base64Facts.EncodeToString_no_sep.
Qed.

Lemma append_same_prefix s t : (s ++ t)%string = s -> t = "".
Proof.
  induction s as [|c s IH]; cbn [append]; [auto|].
  intros E. injection E as E. auto.
Qed.

(** X8. Text after the version number and after the last cost parameter is let
    through: with any such text that holds no separator and does not go on
    with a digit, the string decodes to the same salt, digest and
    parameters as the encoded hash without it, and verifies alike, although
    it is another string whenever one of the two texts is not empty. *)
Theorem trailing_text_is_ignored salt hash a after_version after_costs :
  costs_in_range a ->
  no_sep after_version = true -> Fmt.no_digit_ahead after_version = true ->
  no_sep after_costs = true -> Fmt.no_digit_ahead after_costs = true ->
  decodeHash (with_trailing_text salt hash a after_version after_costs)
  = decodeHash (encodeHashComponents salt hash a)
  /\ (forall IDKey password w,
         VerifyHash IDKey password
           (with_trailing_text salt hash a after_version after_costs) w
         = VerifyHash IDKey password (encodeHashComponents salt hash a) w)
  /\ (after_version <> "" \/ after_costs <> "" ->
      with_trailing_text salt hash a after_version after_costs
      <> encodeHashComponents salt hash a).
Proof.
  intros (Hm & Ht & Hp) N1 D1 N2 D2.
  assert (D : decodeHash (with_trailing_text salt hash a after_version after_costs)
              = decodeHash (encodeHashComponents salt hash a)).
  { rewrite decodeHash_encodeHashComponents by assumption.
    rewrite decodeHash_fields, with_trailing_text_fields by assumption.
    cbn [len List.length nth]. change (negb (Z.of_nat 6 =? 6)) with false. cbv iota.
    rewrite Sscanf_v_trailing by assumption.
    assert (P264 : 2 ^ 32 < 2 ^ 64) by reflexivity.
    assert (P8 : 2 ^ 8 < 2 ^ 64) by reflexivity.
    rewrite Sscanf_mtp_formatted by (lia || assumption).
    destruct (Z.leb_spec (2 ^ 32) (Memory a)); [lia|].
    destruct (Z.leb_spec (2 ^ 32) (Time a)); [lia|].
    destruct (Z.leb_spec (2 ^ 8) (Threads a)); [lia|].
    rewrite !Base64Facts.DecodeString_EncodeToString. reflexivity. }
  split; [exact D|]. split.
  - intros IDKey password w. rewrite !VerifyHash_unfold, D. reflexivity.
  - intros Hne E. apply (f_equal Split) in E.
    rewrite with_trailing_text_fields, encodeHashComponents_fields in E by assumption.
    injection E as Ev Ec.
    apply append_same_prefix in Ec.
    destruct Hne; contradiction.
Qed.

(** X9. A cost number too wide for the variable it is scanned into stops the
    decoding: on a string in the encoded form whose cost field holds [m] or
    [t] of [2^32] or more, or [p] of 256 or more (all below [2^64]),
    [decodeHash] fails with the overflow error of the scan and [VerifyHash]
    returns it without any derivation; when all three fit, the string
    decodes to these numbers. *)
Theorem wide_costs_are_refused m t p salt hash :
  0 <= m < 2 ^ 64 -> 0 <= t < 2 ^ 64 -> 0 <= p < 2 ^ 64 ->
  (m < 2 ^ 32 /\ t < 2 ^ 32 /\ p < 2 ^ 8 ->
   decodeHash (hash_with_costs m t p salt hash)
   = inr ({| Time := t; Memory := m; Threads := p;
             KeyLen := uint32 (len hash); SaltLen := uint32 (len salt) |},
          salt, hash))
  /\ (2 ^ 32 <= m \/ 2 ^ 32 <= t \/ 2 ^ 8 <= p ->
      decodeHash (hash_with_costs m t p salt hash) = inl (ErrScan IntegerOverflow)
      /\ forall IDKey password w,
           VerifyHash IDKey password (hash_with_costs m t p salt hash) w
           = (Returned (false, Some (ErrScan IntegerOverflow)), w)).
Proof.
  intros Hm Ht Hp. rewrite hash_with_costs_encoded.
  set (a := mkArgon2IdHash t m p 0 0). split.
  - intros (Hm' & Ht' & Hp').
    apply (decodeHash_encodeHashComponents salt hash a); cbn; lia.
  - intros Hout.
    assert (D : decodeHash (encodeHashComponents salt hash a)
                = inl (ErrScan IntegerOverflow)).
    { rewrite decodeHash_fields, encodeHashComponents_fields.
      cbn [len List.length nth]. change (negb (Z.of_nat 6 =? 6)) with false. cbv iota.
      change (Fmt.Sscanf_v "v=19") with (@inr scan_failure Z 19). cbv iota.
      rewrite <- (append_nil_r (params_field a)).
      rewrite Sscanf_mtp_formatted by (assumption || reflexivity).
      change (Memory a) with m. change (Time a) with t. change (Threads a) with p.
      destruct (Z.leb_spec (2 ^ 32) m); [reflexivity|].
      destruct (Z.leb_spec (2 ^ 32) t); [reflexivity|].
      destruct (Z.leb_spec (2 ^ 8) p); [reflexivity|].
      exfalso. lia. }
    split; [exact D|]. intros IDKey password w. rewrite VerifyHash_unfold, D. reflexivity.
Qed.

(** ** Verification and the length of the salt *)

(** X10. [VerifyHash] does not look at the length of the salt: an encoded hash
    made of any salt, the empty one included, and of the key derived from a
    password with that salt verifies with the password; the [SaltLen] that
    [decodeHash] reports is the length of that salt. *)
Theorem VerifyHash_accepts_any_salt_length IDKey password salt hash a w :
  argon2_key_length IDKey -> costs_in_range a -> 0 <= KeyLen a < 2 ^ 32 ->
  IDKey (list_byte_of_string password) salt
        (Time a) (Memory a) (Threads a) (KeyLen a) = Some hash ->
  fst (VerifyHash IDKey password (encodeHashComponents salt hash a) w)
  = Returned (true, None)
  /\ exists a',
       decodeHash (encodeHashComponents salt hash a) = inr (a', salt, hash)
       /\ SaltLen a' = uint32 (len salt) /\ KeyLen a' = KeyLen a.
Proof.
  intros Hlen (Hm & Ht & Hp) Hk K.
  pose proof (Hlen _ _ _ _ _ _ _ K) as L.
  assert (L32 : uint32 (len hash) = KeyLen a)
    by (unfold uint32; rewrite L; apply Z.mod_small; exact Hk).
  split.
  - rewrite VerifyHash_encoded by assumption.
    rewrite L32, K, SubtleFacts.ConstantTimeCompare_same. reflexivity.
  - exists (decoded_params a salt hash).
    rewrite decodeHash_encodeHashComponents by assumption.
    cbn [decoded_params SaltLen KeyLen]. auto.
Qed.

(** ** The password, the log and the errors *)

Lemma GenerateHash_rejected_line IDKey a password salt w :
  0 < len salt -> uint32 (len salt) <> SaltLen a ->
  GenerateHash IDKey a password salt w =
  (Returned ("", Some ErrInvalidSaltLength),
   {| entropy := entropy w; derivations := derivations w;
      logged := salt_length_line (SaltLen a) salt :: logged w;
      rand_fatal := rand_fatal w |}).
Proof.
  intros Hpos Hlen.
  unfold GenerateHash, validateSaltLength, bind, ret, log_Printf, salt_length_line.
  apply Z.ltb_lt in Hpos. apply Z.eqb_neq in Hlen. rewrite Hpos, Hlen.
  reflexivity.
Qed.

(** X11. The password reaches neither the log nor an error: what [GenerateHash]
    leaves in the log is the same for any two passwords (nothing, or the
    line with the two salt lengths), [VerifyHash] logs nothing, and when
    either returns an error for one password it returns the same result,
    with the same world, for every other password. *)
Theorem password_reaches_no_log_and_no_error IDKey a p1 p2 salt q1 q2 encodedHash w :
  logged (snd (GenerateHash IDKey a p1 salt w))
  = logged (snd (GenerateHash IDKey a p2 salt w))
  /\ (forall s err,
         fst (GenerateHash IDKey a p1 salt w) = Returned (s, Some err) ->
         GenerateHash IDKey a p2 salt w = GenerateHash IDKey a p1 salt w)
  /\ logged (snd (VerifyHash IDKey q1 encodedHash w)) = logged w
  /\ (forall b err,
         fst (VerifyHash IDKey q1 encodedHash w) = Returned (b, Some err) ->
         VerifyHash IDKey q2 encodedHash w = VerifyHash IDKey q1 encodedHash w).
Proof.
  split; [|split; [|split]].
  - destruct salt as [|b salt].
    + rewrite !GenerateHash_fresh_salt. cbv zeta.
      destruct (_ <=? _)%nat; [|reflexivity].
      destruct (IDKey p1 _ _ _ _ _), (IDKey p2 _ _ _ _ _); reflexivity.
    + assert (Hpos : 0 < len (b :: salt)) by (unfold len; cbn [List.length]; lia).
      destruct (Z.eq_dec (uint32 (len (b :: salt))) (SaltLen a)) as [Hlen|Hlen].
      * rewrite !(GenerateHash_given_salt IDKey a _ _ w Hpos Hlen). cbv zeta.
        destruct (IDKey p1 _ _ _ _ _), (IDKey p2 _ _ _ _ _); reflexivity.
      * rewrite !(GenerateHash_rejected_line IDKey a _ _ w Hpos Hlen). reflexivity.
  - intros s err. destruct salt as [|b salt].
    + rewrite !GenerateHash_fresh_salt. cbv zeta.
      destruct (_ <=? _)%nat; [|reflexivity].
      destruct (IDKey p1 _ _ _ _ _); cbn [fst]; discriminate.
    + assert (Hpos : 0 < len (b :: salt)) by (unfold len; cbn [List.length]; lia).
      destruct (Z.eq_dec (uint32 (len (b :: salt))) (SaltLen a)) as [Hlen|Hlen].
      * rewrite !(GenerateHash_given_salt IDKey a _ _ w Hpos Hlen). cbv zeta.
        destruct (IDKey p1 _ _ _ _ _); cbn [fst]; discriminate.
      * rewrite !(GenerateHash_rejected_line IDKey a _ _ w Hpos Hlen). reflexivity.
  - rewrite VerifyHash_unfold.
    destruct (decodeHash encodedHash) as [err0|[[a0 salt0] hash0]]; [reflexivity|].
    destruct (IDKey _ _ _ _ _ _); reflexivity.
  - intros b err. rewrite !VerifyHash_unfold.
    destruct (decodeHash encodedHash) as [err0|[[a0 salt0] hash0]]; [reflexivity|].
    destruct (IDKey (list_byte_of_string q1) _ _ _ _ _); cbn [fst]; discriminate.
Qed.

(** ** The operations on the sample derivation *)

Lemma sample_generated :
  GenerateHash sample_IDKey DefaultArgon2IDHash
    (list_byte_of_string sample_password) [] sample_world
  = (Returned (sample_encoded, None), sample_world_after).
Proof. vm_compute. reflexivity. Qed.

(** C1 on the sample: the hash generated for the sample password verifies. *)
Lemma VerifyHash_accepts_generated_witness :
  fst (VerifyHash sample_IDKey sample_password sample_encoded sample_world_after)
  = Returned (true, None)
  /\ exists e w',
       GenerateHash sample_IDKey DefaultArgon2IDHash
         (list_byte_of_string sample_password) [] sample_world = (Returned (e, None), w')
       /\ fst (VerifyHash sample_IDKey sample_password e w') = Returned (true, None).
Proof.
  destruct (VerifyHash_accepts_generated sample_IDKey sample_key_length
              DefaultArgon2IDHash sample_password sample_world default_well_typed)
    as [A B].
  split.
  - exact (A _ _ sample_generated).
  - apply (B sample_returns); [cbn; lia|cbn; lia|cbn; lia|vm_compute; lia].
Defined.

(** C4 on the sample. *)
Lemma decode_then_encode_is_identity_witness :
  exists a' salt' hash,
    decodeHash sample_encoded = inr (a', salt', hash)
    /\ encodeHashComponents salt' hash a' = sample_encoded.
Proof.
  apply (decode_then_encode_is_identity sample_IDKey DefaultArgon2IDHash
           (list_byte_of_string sample_password) [] sample_world
           sample_encoded sample_world_after).
  - exact default_well_typed.
  - exact sample_generated.
Defined.

(** C7 on the sample. *)
Lemma generated_hash_format_witness :
  len (Split sample_encoded) = 6
  /\ nth 0 (Split sample_encoded) "" = ""
  /\ nth 1 (Split sample_encoded) "" = "argon2id"
  /\ Base64.std_padded (nth 4 (Split sample_encoded) "") = true
  /\ Base64.std_padded (nth 5 (Split sample_encoded) "") = true.
Proof.
  destruct (generated_hash_format sample_IDKey DefaultArgon2IDHash
              (list_byte_of_string sample_password) [] sample_world
              sample_encoded sample_world_after default_well_typed sample_generated)
    as (salt' & hash & _ & L & F & _ & _ & P4 & P5 & _).
  repeat split; try assumption; rewrite F; vm_compute; reflexivity.
Defined.

(** C5, amended, on the sample: another password is rejected. *)
Lemma VerifyHash_rejects_other_key_witness :
  fst (VerifyHash sample_IDKey "wrong" sample_encoded sample_world_after)
  = Returned (false, None).
Proof.
  destruct (VerifyHash_rejects_other_key sample_IDKey sample_key_length
              DefaultArgon2IDHash sample_password "wrong" sample_world
              sample_encoded sample_world_after
              (sample_stream 32
                 (sample_mix (list_byte_of_string "wrong")
                    (firstn 32 (entropy sample_world)) 2 (19 * 1024) 1))
              default_well_typed sample_generated eq_refl)
    as (hash & K & Hne & _).
  apply Hne. intros E. rewrite <- E in K. vm_compute in K. discriminate K.
Defined.

(** C6, amended, on the sample: the first digest character changed from
    ['s'] to ['t']. *)
Lemma changed_digest_byte_witness :
  fst (VerifyHash sample_IDKey sample_password
         (sample_header ++ String "t" sample_digest_tail) sample_world)
  = Returned (false, None).
Proof.
  assert (N : no_sep (String "s" sample_digest_tail) = true) by (vm_compute; reflexivity).
  eassert (D : decodeHash (sample_header ++ String "s" sample_digest_tail) = inr (_, _, _))
    by (vm_compute; reflexivity).
  assert (V : fst (VerifyHash sample_IDKey sample_password
                     (sample_header ++ String "s" sample_digest_tail) sample_world)
              = Returned (true, None)) by (vm_compute; reflexivity).
  pose proof (changed_digest_byte sample_IDKey sample_password sample_header
                "s" "t" sample_digest_tail sample_world _ _ _ N D V) as H.
  eassert (D' : decodeHash (sample_header ++ String "t" sample_digest_tail) = inr (_, _, _))
    by (vm_compute; reflexivity).
  rewrite D' in H. destruct H as (_ & _ & _ & _ & _ & H & _).
  apply H; [vm_compute; discriminate|reflexivity].
Defined.

(** C9 on the sample: version 19 and version 7. *)
Lemma version_value_is_ignored_witness :
  decodeHash sample_encoded = decodeHash sample_encoded_v7
  /\ VerifyHash sample_IDKey sample_password sample_encoded sample_world
     = VerifyHash sample_IDKey sample_password sample_encoded_v7 sample_world.
Proof.
  assert (H : differ_only_in_version sample_encoded sample_encoded_v7).
  { split; [vm_compute; reflexivity|]. intros i Hi.
    destruct i as [|[|[|[|[|[|i]]]]]]; try (vm_compute; reflexivity). contradiction. }
  destruct (version_value_is_ignored sample_IDKey sample_password
              sample_encoded sample_encoded_v7 19 7 sample_world H eq_refl eq_refl)
    as (D & V & _).
  split; assumption.
Defined.

(** C10 on the sample derivation, which panics on zero rounds or lanes:
    the record of zeros, a record with zero memory only, which decodes, and
    a record with zero rounds only. *)
Lemma decodeHash_validates_nothing_witness :
  decodeHash zero_cost_hash = inr (mkArgon2IdHash 0 0 0 0 0, [], [])
  /\ VerifyHash sample_IDKey sample_password zero_cost_hash sample_world
     = (Panicked,
        note_derivation
          (mkDerivation (list_byte_of_string sample_password) [] 0 0 0 0) sample_world)
  /\ decodeHash (hash_with_costs 0 2 1 sample_salt sample_key_no_salt)
     = inr ({| Time := 2; Memory := 0; Threads := 1;
               KeyLen := uint32 (len sample_key_no_salt);
               SaltLen := uint32 (len sample_salt) |},
            sample_salt, sample_key_no_salt)
  /\ VerifyHash sample_IDKey sample_password
       (hash_with_costs (19 * 1024) 0 1 sample_salt sample_key_no_salt) sample_world
     = (Panicked,
        note_derivation
          (mkDerivation (list_byte_of_string sample_password) sample_salt
             0 (19 * 1024) 1 (uint32 (len sample_key_no_salt))) sample_world).
Proof.
  destruct (decodeHash_validates_nothing sample_IDKey sample_panics)
    as (_ & A & D & _ & Z & P).
  split; [exact D|]. split; [apply P|]. split.
  - apply A; lia.
  - apply Z; lia.
Defined.

(** The three outcomes of a changed digest byte on the sample: an error for
    the separator, rejection for another character of the alphabet, and
    acceptance when only the two unused low bits of the last character
    change (['8'] is sextet 60, ['9'] is 61). *)
Example changed_digest_byte_error :
  fst (VerifyHash sample_IDKey sample_password
         (sample_header ++ String "$" sample_digest_tail) sample_world)
  = Returned (false, Some ErrInvalidEncodedHash).
Proof. vm_compute. reflexivity. Qed.

Example changed_digest_byte_invalid_base64 :
  fst (VerifyHash sample_IDKey sample_password
         (sample_header ++ String "!" sample_digest_tail) sample_world)
  = Returned (false, Some (CorruptInputError 0)).
Proof. vm_compute. reflexivity. Qed.

Example changed_digest_byte_accepted :
  fst (VerifyHash sample_IDKey sample_password
         "$argon2id$v=19$m=19456,t=2,p=1$EcoDXvo9gAchLWO00wVMjhLmQGUJmlfIH3DzOqZIDsM=$sleUX+4CsluxDjSCKPuMFTAqZbTJDeEi/owYTdmrND9="
         sample_world)
  = Returned (true, None).
Proof. vm_compute. reflexivity. Qed.

(** A fourth outcome: the last character before the padding turned into
    the padding character. The digest field then decodes to 31 bytes
    instead of 32, and the result is the one of the key derived at 31
    bytes; the sample derivation, whose shorter keys are the beginnings of
    its longer ones, gives [(true, nil)]. *)
Example changed_digest_byte_shorter :
  (exists a hash',
      decodeHash
        "$argon2id$v=19$m=19456,t=2,p=1$EcoDXvo9gAchLWO00wVMjhLmQGUJmlfIH3DzOqZIDsM=$sleUX+4CsluxDjSCKPuMFTAqZbTJDeEi/owYTdmrND=="
      = inr (a, sample_salt, hash') /\ len hash' = 31 /\ KeyLen a = 31)
  /\ fst (VerifyHash sample_IDKey sample_password
            "$argon2id$v=19$m=19456,t=2,p=1$EcoDXvo9gAchLWO00wVMjhLmQGUJmlfIH3DzOqZIDsM=$sleUX+4CsluxDjSCKPuMFTAqZbTJDeEi/owYTdmrND=="
            sample_world)
     = Returned (true, None).
Proof.
  split; [|vm_compute; reflexivity].
  eexists _, _. split; [vm_compute; reflexivity|]. split; vm_compute; reflexivity.
Qed.

(** The record with zero rounds on the sample derivation. *)
Example zero_rounds_panic :
  fst (VerifyHash sample_IDKey sample_password zero_rounds_hash sample_world) = Panicked.
Proof. vm_compute. reflexivity. Qed.

(** Without entropy for the salt, generation ends the process or returns
    the error of the read, as the [crypto/rand] at hand does. *)
Example short_entropy :
  fst (GenerateHash sample_IDKey DefaultArgon2IDHash
         (list_byte_of_string sample_password) []
         {| entropy := [x00]; derivations := []; logged := []; rand_fatal := true |})
  = Aborted
  /\ fst (GenerateHash sample_IDKey DefaultArgon2IDHash
            (list_byte_of_string sample_password) []
            {| entropy := [x00]; derivations := []; logged := []; rand_fatal := false |})
     = Returned ("", Some ErrRandRead).
Proof. split; vm_compute; reflexivity. Qed.

Example malformed_record :
  VerifyHash sample_IDKey sample_password "not-a-valid-hash" sample_world
  = (Returned (false, Some ErrInvalidEncodedHash), sample_world).
Proof. vm_compute. reflexivity. Qed.

Example wrong_salt_length :
  fst (GenerateHash sample_IDKey DefaultArgon2IDHash
         (list_byte_of_string sample_password) (list_byte_of_string "short") sample_world)
  = Returned ("", Some ErrInvalidSaltLength).
Proof. vm_compute. reflexivity. Qed.

(** ** The further properties on the sample *)

Lemma default_costs_in_range : costs_in_range DefaultArgon2IDHash.
Proof. unfold costs_in_range. cbn. lia. Qed.

(** The sample hash under the scheme [bcrypt], with text in front: it
    decodes and verifies as the sample hash does. *)
Lemma scheme_is_never_checked_witness :
  decodeHash sample_encoded = decodeHash sample_other_scheme
  /\ VerifyHash sample_IDKey sample_password sample_encoded sample_world
     = VerifyHash sample_IDKey sample_password sample_other_scheme sample_world.
Proof.
  assert (H : differ_before_version sample_encoded sample_other_scheme).
  { split; [vm_compute; reflexivity|]. intros i Hi.
    destruct i as [|[|[|[|[|[|i]]]]]]; try (vm_compute; reflexivity); lia. }
  destruct (scheme_is_never_checked sample_encoded sample_other_scheme H) as [D V].
  split; [exact D|apply V].
Defined.

(** The sample hash generated again with its salt given by the caller. *)
Lemma GenerateHash_with_salt_witness :
  entropy sample_world_given_salt = entropy sample_world
  /\ (exists hash, decodeHash sample_encoded = inr (DefaultArgon2IDHash, sample_salt, hash))
  /\ fst (VerifyHash sample_IDKey sample_password sample_encoded sample_world_given_salt)
     = Returned (true, None).
Proof.
  destruct (GenerateHash_with_salt sample_IDKey sample_key_length DefaultArgon2IDHash
              sample_password sample_salt sample_world sample_encoded
              sample_world_given_salt default_well_typed)
    as (E & _ & D & V); try (vm_compute; reflexivity).
  repeat split; assumption.
Defined.

(** The sample hash carries the default parameters. *)
Lemma generated_hash_carries_parameters_witness :
  exists salt hash,
    decodeHash sample_encoded = inr (DefaultArgon2IDHash, salt, hash)
    /\ len salt = SaltLen DefaultArgon2IDHash /\ len hash = KeyLen DefaultArgon2IDHash
    /\ entropy sample_world = salt ++ entropy sample_world_after.
Proof.
  apply (generated_hash_carries_parameters sample_IDKey sample_key_length
           DefaultArgon2IDHash (list_byte_of_string sample_password) sample_world
           sample_encoded sample_world_after default_well_typed sample_generated).
Defined.

(** Another digest under the sample salt gives another string. *)
Lemma encodeHashComponents_injective_witness :
  encodeHashComponents sample_salt sample_key_no_salt DefaultArgon2IDHash
  <> encodeHashComponents sample_salt [] DefaultArgon2IDHash.
Proof.
  intros E.
  apply (encodeHashComponents_injective sample_salt sample_key_no_salt DefaultArgon2IDHash
           sample_salt [] DefaultArgon2IDHash
           default_costs_in_range default_costs_in_range) in E.
  destruct E as (_ & E & _). vm_compute in E. discriminate E.
Defined.

(** Text after the version and after the costs of a hash with the sample
    salt. *)
Lemma trailing_text_is_ignored_witness :
  decodeHash (with_trailing_text sample_salt sample_key_no_salt DefaultArgon2IDHash
                "abc" " rounds")
  = decodeHash (encodeHashComponents sample_salt sample_key_no_salt DefaultArgon2IDHash)
  /\ with_trailing_text sample_salt sample_key_no_salt DefaultArgon2IDHash "abc" " rounds"
     <> encodeHashComponents sample_salt sample_key_no_salt DefaultArgon2IDHash.
Proof.
  destruct (trailing_text_is_ignored sample_salt sample_key_no_salt DefaultArgon2IDHash
              "abc" " rounds" default_costs_in_range
              ltac:(vm_compute; reflexivity) ltac:(vm_compute; reflexivity)
              ltac:(vm_compute; reflexivity) ltac:(vm_compute; reflexivity))
    as (D & _ & N).
  split; [exact D|]. apply N. left. discriminate.
Defined.

(** A hash written with 300 lanes does not decode. *)
Lemma wide_costs_are_refused_witness :
  decodeHash (hash_with_costs (19 * 1024) 2 300 sample_salt sample_key_no_salt)
  = inl (ErrScan IntegerOverflow).
Proof.
  destruct (wide_costs_are_refused (19 * 1024) 2 300 sample_salt sample_key_no_salt)
    as [_ B]; try lia.
  apply B. lia.
Defined.

(** The sample password verifies against its key under the empty salt. *)
Lemma VerifyHash_accepts_any_salt_length_witness :
  fst (VerifyHash sample_IDKey sample_password
         (encodeHashComponents [] sample_key_no_salt DefaultArgon2IDHash) sample_world)
  = Returned (true, None).
Proof.
  apply (VerifyHash_accepts_any_salt_length sample_IDKey sample_password []
           sample_key_no_salt DefaultArgon2IDHash sample_world
           sample_key_length default_costs_in_range).
  - cbn. lia.
  - vm_compute. reflexivity.
Defined.
